(** * Ron the Reminder Bot: a shallow embedding of [main.py]

    The development follows the source file top to bottom:

    - [Text]      Python [str] values as lists of Unicode code points;
    - [Re]        the fragment of Python's [re] module that the two command
                  patterns use (sequences of single characters, greedy and
                  lazy repetitions of a character class, capture groups),
                  with the leftmost-first backtracking search of [re.search];
    - [Datetime]  naive [datetime] values, [replace], [timedelta] addition
                  and comparison, with the range errors they raise;
    - [Bot]       [parse_reminder_text], [check_reminders],
                  [send_reminder_message] and [a2a_endpoint] over an explicit
                  world state (the [reminders] list, the HTTP client, the
                  printed lines and the requests posted).

    Exceptions are values of [exn] carried by [result]; a function that can
    raise returns [result A]. *)

From Stdlib Require Import String Ascii ZArith NArith Bool Lia List Permutation.
Import ListNotations.

(** ** Text *)

Module Text.

(** A Python [str] is a sequence of code points. *)
Definition char := N.
Definition text := list char.

(** [str "abc"] is the text of an ASCII literal of the source. *)
Definition str (s : string) : text := map N_of_ascii (list_ascii_of_string s).

Definition ch (a : ascii) : char := N_of_ascii a.

(** [Py_UNICODE_ISSPACE]: the class [\s] of a [str] pattern, and the
    characters removed by [str.strip()]. *)
Definition Py_UNICODE_ISSPACE (c : char) : bool :=
  ((9 <=? c) && (c <=? 13) || (28 <=? c) && (c <=? 32)
   || (c =? 133) || (c =? 160) || (c =? 5760)
   || (8192 <=? c) && (c <=? 8202)
   || (c =? 8232) || (c =? 8233) || (c =? 8239) || (c =? 8287)
   || (c =? 12288))%N.

(** [.] without [re.DOTALL]: anything but a line feed. *)
Definition any_but_newline (c : char) : bool := negb (c =? 10)%N.

(** Lower-casing as [re.IGNORECASE] applies it to the subject character.
    Only the code points whose simple lower-case mapping is an ASCII letter
    are listed (the capitals, U+0130 and the Kelvin sign U+212A); every other
    code point is mapped by Python to itself or to a non-ASCII code point
    different from U+0131 and U+017F, which is all that a comparison against
    the letters of the two patterns can observe. *)
Definition sre_lower_unicode (c : char) : char :=
  (if (65 <=? c) && (c <=? 90) then c + 32
   else if c =? 304 then 105
   else if c =? 8490 then 107
   else c)%N.

(** The extra case-insensitive equivalents of a lower-case pattern letter
    ([_ignorecase_fixes] of the [re] compiler): dotless i for [i], long s
    for [s]. None of the other letters of the patterns has one. *)
Definition ignorecase_fixes (lo : char) : list char :=
  (if lo =? 105 then [305] else if lo =? 115 then [383] else [])%N.

Definition mem (c : char) (l : list char) : bool := existsb (N.eqb c) l.

Definition is_ascii_lower (c : char) : bool := ((97 <=? c) && (c <=? 122))%N.

(** A literal of a pattern compiled with [re.IGNORECASE]. The literals of the
    source are lower-case ASCII letters, compared with the lower-cased
    subject character, or uncased punctuation, compared as it is. *)
Definition literal_ignorecase (lit : char) (c : char) : bool :=
  if is_ascii_lower lit
  then mem (sre_lower_unicode c) (lit :: ignorecase_fixes lit)
  else (c =? lit)%N.

(** [str.strip()] *)
Fixpoint lstrip (s : text) : text :=
  match s with
  | c :: s' => if Py_UNICODE_ISSPACE c then lstrip s' else s
  | [] => []
  end.

Definition strip (s : text) : text := rev (lstrip (rev (lstrip s))).

End Text.
Import Text.

(** ** The regular-expression fragment *)

Module Re.

(** A pattern is a sequence of items; every repetition of the two patterns
    is over a single character class, and every group wraps one
    repetition. *)
Inductive item :=
| Chr (p : char -> bool)
| Rep (greedy : bool) (lo : nat) (hi : option nat) (p : char -> bool)
| Cap (greedy : bool) (lo : nat) (hi : option nat) (p : char -> bool).

Definition regex := list item.

Definition more_allowed (hi : option nat) : bool :=
  match hi with Some 0 => false | _ => true end.

(** Backtracking repetition of a class: a greedy repetition first tries to
    take one more character and falls back to stopping, a lazy one first
    tries to stop. [k] is the rest of the pattern. *)
Fixpoint rep {A} (greedy : bool) (lo : nat) (hi : option nat)
    (p : char -> bool) (s : text) (k : text -> option A) {struct s}
  : option A :=
  let stop := match lo with 0 => k s | S _ => None end in
  let more :=
    match s with
    | c :: s' =>
        if p c && more_allowed hi
        then rep greedy (pred lo) (option_map pred hi) p s' k
        else None
    | [] => None
    end in
  if greedy
  then match more with Some x => Some x | None => stop end
  else match stop with Some x => Some x | None => more end.

(** Matching anchored at the head of [s]; [caps] accumulates the groups
    closed so far, in order. *)
Fixpoint mtch (r : regex) (s : text) (caps : list text) {struct r}
  : option (list text) :=
  match r with
  | [] => Some caps
  | Chr p :: r' =>
      match s with
      | c :: s' => if p c then mtch r' s' caps else None
      | [] => None
      end
  | Rep g lo hi p :: r' => rep g lo hi p s (fun s' => mtch r' s' caps)
  | Cap g lo hi p :: r' =>
      rep g lo hi p s
        (fun s' =>
           mtch r' s' (caps ++ [firstn (length s - length s') s]))
  end.

(** [re.search]: the first start position, from the left, at which the
    pattern matches. The result lists [group(1)], [group(2)], ... *)
Fixpoint search (r : regex) (s : text) : option (list text) :=
  match mtch r s [] with
  | Some caps => Some caps
  | None => match s with
            | [] => None
            | _ :: s' => search r s'
            end
  end.

Definition group (caps : list text) (i : nat) : text := nth (pred i) caps [].

Definition within (hi : option nat) (n : nat) : Prop :=
  match hi with Some h => n <= h | None => True end.

(** What it means for a pattern to match a whole text [m] with groups
    [caps], independently of the search order. *)
Fixpoint matches (r : regex) (m : text) (caps : list text) : Prop :=
  match r with
  | [] => m = [] /\ caps = []
  | Chr p :: r' =>
      exists c m', m = c :: m' /\ p c = true /\ matches r' m' caps
  | Rep _ lo hi p :: r' =>
      exists u m', m = u ++ m' /\ forallb p u = true /\
                   lo <= length u /\ within hi (length u) /\
                   matches r' m' caps
  | Cap _ lo hi p :: r' =>
      exists u m' caps', m = u ++ m' /\ caps = u :: caps' /\
                   forallb p u = true /\
                   lo <= length u /\ within hi (length u) /\
                   matches r' m' caps'
  end.

(** Pattern builders. *)
Definition lits (s : string) : regex :=
  map (fun c => Chr (literal_ignorecase c)) (str s).

Definition plus (p : char -> bool) : item := Rep true 1 None p.

End Re.
Import Re.

(** ** Exceptions *)

Inductive exn :=
| ValueError
| OverflowError
| AttributeError
| TransportError.  (* httpx timeouts and connection errors *)

Inductive result (A : Type) :=
| Ok (a : A)
| Raise (e : exn).
Arguments Ok {A} a.
Arguments Raise {A} e.

Definition rbind {A B} (r : result A) (f : A -> result B) : result B :=
  match r with Ok a => f a | Raise e => Raise e end.

Notation "'let?' x ':=' e 'in' k" := (rbind e (fun x => k))
  (at level 10, x name, e at level 100, k at level 200).

(** ** Naive datetimes *)

Module Datetime.
Open Scope Z_scope.

(** A naive [datetime]. The calendar date is kept as its proleptic Gregorian
    ordinal ([date.toordinal()], 1 for 0001-01-01), which is how the
    [datetime] module itself does date arithmetic; [replace] of the time
    fields and comparison do not look inside the date. *)
Record datetime := mkdt {
  ordinal : Z;
  hour : Z;
  minute : Z;
  second : Z;
  microsecond : Z
}.

(** [date.max.toordinal()], the ordinal of 9999-12-31. *)
Definition MAXORDINAL : Z := 3652059.

(** The invariant of every [datetime] object. *)
Definition valid (t : datetime) : Prop :=
  1 <= ordinal t <= MAXORDINAL /\ 0 <= hour t < 24 /\ 0 <= minute t < 60 /\
  0 <= second t < 60 /\ 0 <= microsecond t < 1000000.

Record timedelta := mktd {
  days : Z;
  seconds : Z;
  microseconds : Z
}.

(** [timedelta(minutes=n)], normalised; the constructor refuses more than
    999999999 days. *)
Definition timedelta_minutes (n : Z) : result timedelta :=
  let d := n / 1440 in
  if 999999999 <? Z.abs d then Raise OverflowError
  else Ok (mktd d ((n mod 1440) * 60) 0).

(** [timedelta(days=n)] for a small [n]. *)
Definition timedelta_days (n : Z) : timedelta := mktd n 0 0.

(** [datetime.__add__]: the sum is normalised and must fall on a
    representable date. *)
Definition add (t : datetime) (d : timedelta) : result datetime :=
  let us := microsecond t + microseconds d in
  let secs := hour t * 3600 + minute t * 60 + second t + seconds d
              + us / 1000000 in
  let day := ordinal t + days d + secs / 86400 in
  let rem := secs mod 86400 in
  if (0 <? day) && (day <=? MAXORDINAL)
  then Ok (mkdt day (rem / 3600) ((rem mod 3600) / 60) (rem mod 60)
                (us mod 1000000))
  else Raise OverflowError.

(** [t.replace(hour=h, minute=m, second=s, microsecond=us)]: the new
    fields are range-checked. *)
Definition replace (t : datetime) (h m s us : Z) : result datetime :=
  if negb ((0 <=? h) && (h <=? 23)) then Raise ValueError
  else if negb ((0 <=? m) && (m <=? 59)) then Raise ValueError
  else if negb ((0 <=? s) && (s <=? 59)) then Raise ValueError
  else if negb ((0 <=? us) && (us <=? 999999)) then Raise ValueError
  else Ok (mkdt (ordinal t) h m s us).

(** Comparison is lexicographic on the fields. *)
Definition fields (t : datetime) : list Z :=
  [ordinal t; hour t; minute t; second t; microsecond t].

Fixpoint lex_compare (a b : list Z) : comparison :=
  match a, b with
  | x :: a', y :: b' =>
      match x ?= y with Eq => lex_compare a' b' | c => c end
  | [], [] => Eq
  | [], _ :: _ => Lt
  | _ :: _, [] => Gt
  end.

Definition compare (a b : datetime) : comparison :=
  lex_compare (fields a) (fields b).

Definition lt (a b : datetime) : bool :=
  match compare a b with Lt => true | _ => false end.
Definition le (a b : datetime) : bool :=
  match compare a b with Gt => false | _ => true end.
Definition gt (a b : datetime) : bool := lt b a.

(** Microseconds since the start of day 0: the instant a datetime denotes,
    used to state results. *)
Definition timestamp (t : datetime) : Z :=
  (((ordinal t * 24 + hour t) * 60 + minute t) * 60 + second t) * 1000000
  + microsecond t.

(** The length of a timedelta in microseconds. *)
Definition span_us (d : timedelta) : Z :=
  (days d * 86400 + seconds d) * 1000000 + microseconds d.

(** A normalised, non-negative timedelta. *)
Definition forward (d : timedelta) : Prop :=
  0 <= days d /\ 0 <= seconds d < 86400 /\ 0 <= microseconds d < 1000000.

End Datetime.
Import Datetime.

(** ** (A), (B) The A2A protocol models *)

Inductive part_kind := kind_text | kind_data | kind_file.
Inductive role_t := role_user | role_agent | role_system.
Inductive method_t := message_send | execute.
Inductive status_t := completed | working | failed.

Record MessagePart := {
  kind : part_kind;
  part_text : option text
}.

Record A2AMessage := {
  role : role_t;
  parts : list MessagePart;
  messageId : text            (* default_factory=str: the empty string *)
}.

Record PushNotificationConfig := {
  url : text;
  token : option text
}.

Record MessageConfiguration := {
  blocking : bool;
  pushNotificationConfig : option PushNotificationConfig
}.

Record MessageParams := {
  message : A2AMessage;
  contextId : text;
  configuration : MessageConfiguration
}.

(** [jsonrpc] is the constant "2.0" in every envelope and is left out of
    the records. *)
Record JSONRPCRequest := {
  id : text;
  method : method_t;
  params : MessageParams
}.

Record TaskResult := {
  result_contextId : text;
  status : status_t;
  result_message : A2AMessage
}.

Record JSONRPCResponse := {
  response_id : text;
  result_ : TaskResult
}.

Record OutboundMessageParams := {
  out_contextId : text;
  out_message : A2AMessage
}.

Record OutboundJSONRPCRequest := {
  out_id : text;
  out_method : text;
  out_params : OutboundMessageParams
}.

(** ** (C) Scheduler and application state *)

(** [(reminder_time, message_text, notification_url, context_id)] *)
Definition reminder := (datetime * text * text * text)%type.

(** [r[0]] *)
Definition fire_at (r : reminder) : datetime :=
  let '(t, _, _, _) := r in t.

(** One call of [async_http_client.post]. *)
Record http_request := {
  post_url : text;
  post_json : OutboundJSONRPCRequest;
  post_timeout : Z             (* seconds *)
}.

Inductive http_outcome :=
| Response (status_code : Z) (body : text)
| Failure (e : exn).

(** The lines the program prints, one constructor per [print] of the
    source, carrying the values it interpolates. *)
Inductive line :=
| FoundDue (n : nat)
| ClientNotInitialized
| Sending (context_id message_text : text)
| SentOk (context_id : text)
| SendError (context_id : text) (status_code : Z) (body : text)
| SendException (e : exn)
| NoPushUrl
| ReminderSet (context_id : text) (reminder_time : datetime) (total : nat).

(** The module-level state and the outside world the coroutines act on. *)
Record world := {
  reminders : list reminder;
  async_http_client : bool;    (* [false] for [None] *)
  stdout : list line;
  posted : list http_request;  (* the POSTs made, oldest first *)
  uuids : nat                  (* how many ids [uuid.uuid4] has handed out *)
}.

(** Coroutines: state passing with exceptions; what was done before a
    raise stays done. *)
Definition M (A : Type) := world -> result A * world.

Definition ret {A} (a : A) : M A := fun w => (Ok a, w).
Definition bind {A B} (m : M A) (f : A -> M B) : M B :=
  fun w => match m w with
           | (Ok a, w') => f a w'
           | (Raise e, w') => (Raise e, w')
           end.
Definition lift {A} (r : result A) : M A := fun w => (r, w).

(** [try: body  except Exception as e: handler e] *)
Definition try_except {A} (body : M A) (handler : exn -> M A) : M A :=
  fun w => match body w with
           | (Ok a, w') => (Ok a, w')
           | (Raise e, w') => handler e w'
           end.

Notation "x <- m ;; k" := (bind m (fun x => k))
  (at level 61, m at next level, right associativity).
Notation "m ;; k" := (bind m (fun _ => k))
  (at level 61, right associativity).

Definition print (l : line) : M unit :=
  fun w => (Ok tt, {| reminders := reminders w;
                      async_http_client := async_http_client w;
                      stdout := stdout w ++ [l];
                      posted := posted w;
                      uuids := uuids w |}).

Definition get_reminders : M (list reminder) := fun w => (Ok (reminders w), w).

Definition set_reminders (rs : list reminder) : M unit :=
  fun w => (Ok tt, {| reminders := rs;
                      async_http_client := async_http_client w;
                      stdout := stdout w;
                      posted := posted w;
                      uuids := uuids w |}).

Definition get_client : M bool := fun w => (Ok (async_http_client w), w).

(** [asyncio.gather] over [tasks]: the coroutines of the batch, in list
    order. Each delivery runs without suspension up to its POST, so the ids
    are drawn and the POSTs started in this order; the line a delivery
    prints after its POST may in reality come later than modelled, which no
    statement below depends on. *)
Fixpoint gather (tasks : list (M unit)) : M unit :=
  match tasks with
  | [] => ret tt
  | t :: ts => t ;; gather ts
  end.

Definition quote : char := 34%N.
Definition colon : char := 58%N.
Definition newline : char := 10%N.
Definition space : char := 32%N.
Definition slash : char := 47%N.

Section Bot.

(** The Unicode database of the interpreter: the decimal value of a code
    point of category Nd ([\d] of a [str] pattern, and the digits [int]
    accepts). *)
Variable Py_UNICODE_TODECIMAL : char -> option N.

(** [reminder_time.strftime("%-I:%M %p on %b %d")], rendered by the
    platform's C library in its locale. *)
Variable strftime : datetime -> text.

(** [str(uuid.uuid4())]: the [n]-th identifier drawn. *)
Variable uuid4 : nat -> text.

(** What the network answers to a POST. *)
Variable network : http_request -> http_outcome.

Definition is_decimal (c : char) : bool :=
  match Py_UNICODE_TODECIMAL c with Some _ => true | None => false end.

(** [sys.get_int_max_str_digits()], at its default. *)
Definition int_max_str_digits : nat := 4300.

Fixpoint int_digits (acc : Z) (s : text) : result Z :=
  match s with
  | [] => Ok acc
  | c :: s' =>
      match Py_UNICODE_TODECIMAL c with
      | Some d => int_digits (10 * acc + Z.of_N d) s'
      | None => Raise ValueError
      end
  end.

(** [int(s)] on a text without sign, blanks or underscores. *)
Definition int (s : text) : result Z :=
  match s with
  | [] => Raise ValueError
  | _ => if Nat.ltb int_max_str_digits (length s) then Raise ValueError
         else int_digits 0 s
  end.

Definition lit (c : char) : item := Chr (literal_ignorecase c).

(** [r'/remindme\s+"(.*?)"\s+in\s+(\d+)\s+minutes?'], [re.IGNORECASE] *)
Definition pattern_A : regex :=
  lits "/remindme" ++
  [plus Py_UNICODE_ISSPACE; lit quote; Cap false 0 None any_but_newline;
   lit quote; plus Py_UNICODE_ISSPACE] ++
  lits "in" ++
  [plus Py_UNICODE_ISSPACE; Cap true 1 None is_decimal;
   plus Py_UNICODE_ISSPACE] ++
  lits "minute" ++
  [Rep true 0 (Some 1%nat) (literal_ignorecase (ch "s"))].

(** [r'/remindme\s+"(.*?)"\s+at\s+(\d{1,2}):(\d{2})'], [re.IGNORECASE] *)
Definition pattern_B : regex :=
  lits "/remindme" ++
  [plus Py_UNICODE_ISSPACE; lit quote; Cap false 0 None any_but_newline;
   lit quote; plus Py_UNICODE_ISSPACE] ++
  lits "at" ++
  [plus Py_UNICODE_ISSPACE; Cap true 1 (Some 2%nat) is_decimal; lit colon;
   Cap true 2 (Some 2%nat) is_decimal].

(** [parse_reminder_text]; [now] is what [datetime.now()] returns during
    the call. *)
Definition parse_reminder_text (now : datetime) (text_ : text)
  : result (option (text * datetime)) :=
  match search pattern_A text_ with
  | Some m =>
      let message := group m 1 in
      let? minutes := int (group m 2) in
      let? delta := timedelta_minutes minutes in
      let? reminder_time := add now delta in
      Ok (Some (message, reminder_time))
  | None =>
      match search pattern_B text_ with
      | Some m =>
          let message := group m 1 in
          let? hour := int (group m 2) in
          let? minute := int (group m 3) in
          let? reminder_time := replace now hour minute 0 0 in
          if lt reminder_time now
          then let? reminder_time := add reminder_time (timedelta_days 1) in
               Ok (Some (message, reminder_time))
          else Ok (Some (message, reminder_time))
      | None => Ok None
      end
  end.

(** [uuid.uuid4()] through the [default_factory] of the request id. *)
Definition new_uuid : M text :=
  fun w => (Ok (uuid4 (uuids w)),
            {| reminders := reminders w;
               async_http_client := async_http_client w;
               stdout := stdout w;
               posted := posted w;
               uuids := S (uuids w) |}).

(** [await async_http_client.post(url, json=..., timeout=...)]: the attempt
    is recorded; a transport failure surfaces as an exception. *)
Definition client_post (url_ : text) (json : OutboundJSONRPCRequest)
    (timeout : Z) : M (Z * text) :=
  fun w =>
    let req := {| post_url := url_; post_json := json;
                  post_timeout := timeout |} in
    let w' := {| reminders := reminders w;
                 async_http_client := async_http_client w;
                 stdout := stdout w;
                 posted := posted w ++ [req];
                 uuids := uuids w |} in
    match network req with
    | Response code body => (Ok (code, body), w')
    | Failure e => (Raise e, w')
    end.

Definition bell : char := 128276%N.        (* U+1F514 *)
Definition check_mark : char := 9989%N.    (* U+2705 *)
Definition bullet : char := 8226%N.        (* U+2022 *)
Definition backtick : char := 96%N.

(** [f"(bell) REMINDER: {message_text}"] *)
Definition reminder_text (message_text : text) : text :=
  bell :: str " REMINDER: " ++ message_text.

(** [OutboundJSONRPCRequest(params=outbound_params)] *)
Definition new_OutboundJSONRPCRequest (p : OutboundMessageParams)
  : M OutboundJSONRPCRequest :=
  i <- new_uuid ;;
  ret {| out_id := i; out_method := str "message/push"; out_params := p |}.

(** [send_reminder_message] *)
Definition send_reminder_message (push_url context_id message_text : text)
  : M unit :=
  client <- get_client ;;
  if negb client then print ClientNotInitialized
  else
    print (Sending context_id message_text) ;;
    try_except
      (let reminder_message_part :=
         {| kind := kind_text;
            part_text := Some (reminder_text message_text) |} in
       let reminder_a2a_message :=
         {| role := role_agent; parts := [reminder_message_part];
            messageId := [] |} in
       let outbound_params :=
         {| out_contextId := context_id;
            out_message := reminder_a2a_message |} in
       outbound_request <- new_OutboundJSONRPCRequest outbound_params ;;
       response <- client_post push_url outbound_request 10 ;;
       let '(status_code, body) := response in
       if (200 <=? status_code) && (status_code <? 300)
       then print (SentOk context_id)
       else print (SendError context_id status_code body))
      (fun e => print (SendException e)).

(** The two comprehensions of [check_reminders]. *)
Definition due_reminders (now : datetime) (rs : list reminder)
  : list reminder :=
  filter (fun r => le (fire_at r) now) rs.

Definition kept_reminders (now : datetime) (rs : list reminder)
  : list reminder :=
  filter (fun r => gt (fire_at r) now) rs.

(** The loop that fills [tasks]: one delivery per due reminder. *)
Definition tasks_of (due : list reminder) : list (M unit) :=
  map (fun r : reminder =>
         let '(reminder_time, message_, url_, context_id) := r in
         send_reminder_message url_ context_id message_) due.

(** [check_reminders]; [now] is its [datetime.now()]. *)
Definition check_reminders (now : datetime) : M unit :=
  rs <- get_reminders ;;
  let due := due_reminders now rs in
  set_reminders (kept_reminders now rs) ;;
  match due with
  | [] => ret tt
  | _ :: _ =>
      print (FoundDue (length due)) ;;
      let tasks := tasks_of due in
      gather tasks
  end.

(** ** (D) The endpoint *)

(** Step 1 of [a2a_endpoint]: the stripped text of the first text part,
    the empty string when there is none. *)
Fixpoint first_text (ps : list MessagePart) : result text :=
  match ps with
  | [] => Ok []
  | part :: ps' =>
      match kind part with
      | kind_text =>
          match part_text part with
          | Some t => Ok (strip t)
          | None => Raise AttributeError     (* [None.strip()] *)
          end
      | _ => first_text ps'
      end
  end.

Definition missing_url_reply : text :=
  str "Sorry, I can't set a reminder. The chat configuration is missing my callback URL.".

(** [f"(check mark) Got it! I'll remind you to \"{message_text}\" at {time_str}."] *)
Definition confirmation_reply (message_text time_str : text) : text :=
  check_mark :: str " Got it! I'll remind you to " ++ [quote] ++
  message_text ++ [quote] ++ str " at " ++ time_str ++ str ".".

Definition help_reply : text :=
  str "Sorry, I didn't quite get that. Please use a format like:" ++
  [newline; bullet] ++ str " " ++ [backtick] ++ str "/remindme " ++
  [quote] ++ str "Task" ++ [quote] ++ str " in 10 minutes" ++
  [backtick; newline; bullet] ++ str " " ++ [backtick] ++
  str "/remindme " ++ [quote] ++ str "Task" ++ [quote] ++ str " at 16:30" ++
  [backtick].

Definition append_reminder (r : reminder) : M unit :=
  rs <- get_reminders ;; set_reminders (rs ++ [r]).

(** [a2a_endpoint]; [now] is the [datetime.now()] of the parser call. *)
Definition a2a_endpoint (now : datetime) (request : JSONRPCRequest)
  : M JSONRPCResponse :=
  user_message_text <- lift (first_text (parts (message (params request)))) ;;
  parsed_data <- lift (parse_reminder_text now user_message_text) ;;
  reply_text <-
    match parsed_data with
    | Some (message_text, reminder_time) =>
        push_url <-
          lift (match pushNotificationConfig
                        (configuration (params request)) with
                | Some c => Ok (url c)
                | None => Raise AttributeError   (* [None.url] *)
                end) ;;
        let context_id := contextId (params request) in
        match push_url with
        | [] =>
            print NoPushUrl ;;
            ret missing_url_reply
        | _ :: _ =>
            append_reminder
              (reminder_time, message_text, push_url, context_id) ;;
            rs <- get_reminders ;;
            print (ReminderSet context_id reminder_time (length rs)) ;;
            let time_str := strftime reminder_time in
            ret (confirmation_reply message_text time_str)
        end
    | None => ret help_reply
    end ;;
  let reply_message :=
    {| role := role_agent;
       parts := [{| kind := kind_text; part_text := Some reply_text |}];
       messageId := [] |} in
  let task_result :=
    {| result_contextId := contextId (params request);
       status := completed;
       result_message := reply_message |} in
  ret {| response_id := id request; result_ := task_result |}.

End Bot.

(** ** Command texts and sample data used in the statements *)

(** The ASCII block of the decimal-digit table, which every version of the
    Unicode database shares. *)
Definition ascii_decimal (c : char) : option N :=
  (if (48 <=? c) && (c <=? 57) then Some (c - 48) else None)%N.

Definition ascii_table (D : char -> option N) : Prop :=
  forall c, (c < 128)%N -> D c = ascii_decimal c.

(** A number written in ASCII digits, most significant first. *)
Definition digits_text (ds : list N) : text := map (fun d => (48 + d)%N) ds.

Definition digits_value (ds : list N) : Z :=
  fold_left (fun acc d => 10 * acc + Z.of_N d) ds 0.

Definition is_digits (ds : list N) : bool := forallb (fun d => (d <? 10)%N) ds.

(** [s] is the keyword [kw] up to the case folding of [re.IGNORECASE]. *)
Fixpoint ci_match (kw s : text) : bool :=
  match kw, s with
  | [], [] => true
  | l :: kw', c :: s' => literal_ignorecase l c && ci_match kw' s'
  | _, _ => false
  end.

(** A message without a double quote and without a line feed. *)
Definition plain (x : text) : bool :=
  forallb (fun c => negb (c =? quote)%N && negb (c =? newline)%N) x.

(** [/remindme "x" in N minutes], the keywords in any letter case. *)
Definition command_in (remindme x in_ : text) (ds : list N) (minutes : text)
  : text :=
  remindme ++ space :: quote :: x ++ quote :: space :: in_ ++
  space :: digits_text ds ++ space :: minutes.

(** [/remindme "x" at H:MM] *)
Definition command_at (remindme x at_ : text) (hs ms : list N) : text :=
  remindme ++ space :: quote :: x ++ quote :: space :: at_ ++
  space :: digits_text hs ++ colon :: digits_text ms.

(** The POST that delivers one reminder, given the request id drawn. *)
Definition push_request (id_ url_ context_id message_text : text)
  : http_request :=
  {| post_url := url_;
     post_json :=
       {| out_id := id_;
          out_method := str "message/push";
          out_params :=
            {| out_contextId := context_id;
               out_message :=
                 {| role := role_agent;
                    parts := [{| kind := kind_text;
                                 part_text := Some (bell :: str " REMINDER: "
                                                         ++ message_text) |}];
                    messageId := [] |} |} |};
     post_timeout := 10 |}.

(** The POSTs of a batch, the [n]-th id being the first one drawn. *)
Fixpoint push_requests (uuid4 : nat -> text) (n : nat) (rs : list reminder)
  : list http_request :=
  match rs with
  | [] => []
  | (_, message_text, url_, context_id) :: rs' =>
      push_request (uuid4 n) url_ context_id message_text
      :: push_requests uuid4 (S n) rs'
  end.

(** The line printed for a delivery that did not succeed. *)
Definition failure_line (context_id : text) (o : http_outcome) : line :=
  match o with
  | Response code body => SendError context_id code body
  | Failure e => SendException e
  end.

Definition delivery_failed (o : http_outcome) : bool :=
  match o with
  | Response code _ => negb ((200 <=? code) && (code <? 300))
  | Failure _ => true
  end.

(** The number of double quotes in a text. *)
Definition cnt (l : text) : nat := count_occ N.eq_dec l quote.

(** The letters and the slash of the keywords. *)
Definition wordchar (l : char) : bool := is_ascii_lower l || (l =? slash)%N.

(** The part the two patterns share, and what follows it in each. *)
Definition command_head : regex :=
  lits "/remindme" ++
  [plus Py_UNICODE_ISSPACE; lit quote; Cap false 0 None any_but_newline;
   lit quote; plus Py_UNICODE_ISSPACE].

Definition tail_A (D : char -> option N) : regex :=
  lits "in" ++
  [plus Py_UNICODE_ISSPACE; Cap true 1 None (is_decimal D);
   plus Py_UNICODE_ISSPACE] ++
  lits "minute" ++
  [Rep true 0 (Some 1%nat) (literal_ignorecase (ch "s"))].

Definition tail_B (D : char -> option N) : regex :=
  lits "at" ++
  [plus Py_UNICODE_ISSPACE; Cap true 1 (Some 2%nat) (is_decimal D);
   lit colon; Cap true 2 (Some 2%nat) (is_decimal D)].

(** The response of the endpoint around a reply text. *)
Definition reply_of (request : JSONRPCRequest) (reply_text : text)
  : JSONRPCResponse :=
  {| response_id := id request;
     result_ :=
       {| result_contextId := contextId (params request);
          status := completed;
          result_message :=
            {| role := role_agent;
               parts := [{| kind := kind_text;
                            part_text := Some reply_text |}];
               messageId := [] |} |} |}.

Module Sample.

Definition now0 : datetime := mkdt 739000 9 5 0 0.
Definition late : datetime := mkdt 739000 9 5 30 0.
Definition last_day : datetime := mkdt MAXORDINAL 9 5 30 0.

Definition cmd : text := str "/remindme".

Definition in_0_minutes : text :=
  command_in cmd (str "x") (str "in") [0%N] (str "minutes").
Definition in_10_minutes : text :=
  command_in cmd (str "call mom") (str "in") [1%N; 0%N] (str "minutes").
Definition in_many_minutes : text :=
  command_in cmd (str "x") (str "in")
    [1; 0; 0; 0; 0; 0; 0; 0; 0; 0; 0]%N (str "minutes").
Definition two_lines : text := str "a" ++ [newline] ++ str "b".
Definition in_5_two_lines : text :=
  command_in cmd two_lines (str "in") [5%N] (str "minutes").
Definition at_0905 : text :=
  command_at cmd (str "standup") (str "at") [0%N; 9%N] [0%N; 5%N].
Definition at_2500 : text :=
  command_at cmd (str "X") (str "at") [2%N; 5%N] [0%N; 0%N].
Definition at_0975 : text :=
  command_at cmd (str "X") (str "at") [9%N] [7%N; 5%N].
Definition hello_there : text := str "hello there".
Definition in_5_minutes : text :=
  command_in cmd (str "x") (str "in") [5%N] (str "minutes").
Definition dangling : text := cmd ++ [space; quote].
Definition quoted_in_3 : text :=
  command_in cmd (str "a" ++ [quote] ++ str " in 3 minutes") (str "in")
    [5%N] (str "minutes").
Definition at_0100 : text :=
  command_at cmd (str "x") (str "at") [1%N] [0%N; 0%N].
Definition then_in_5 : text := quote :: str " in 5 minutes".

Definition callback : text := str "https://telex.example/push".

Definition request_of (t : text) (cfg : option PushNotificationConfig)
  : JSONRPCRequest :=
  {| id := str "1";
     method := message_send;
     params :=
       {| message := {| role := role_user;
                        parts := [{| kind := kind_text;
                                     part_text := Some t |}];
                        messageId := [] |};
          contextId := str "ctx";
          configuration := {| blocking := true;
                              pushNotificationConfig := cfg |} |} |}.

Definition empty_world : world :=
  {| reminders := []; async_http_client := true; stdout := [];
     posted := []; uuids := 0 |}.

Definition one_due : world :=
  {| reminders := [(now0, str "call mom", callback, str "ctx")];
     async_http_client := true; stdout := []; posted := []; uuids := 0 |}.

Definition strftime0 (t : datetime) : text := str "9:15 AM on Jan 01".
Definition uuid0 (n : nat) : text := str "id-" ++ repeat 49%N n.
Definition server_error (r : http_request) : http_outcome :=
  Response 500 (str "Internal Server Error").
Definition timed_out (r : http_request) : http_outcome :=
  Failure TransportError.

End Sample.

(** ** Further notions used in the statements *)

(** The interval job of [lifespan]: the scheduler fires [check_reminders]
    once per period, one run after the other; [nows] lists what
    [datetime.now()] returns in the successive runs. *)
Fixpoint run_scheduler (uuid4 : nat -> text)
    (network : http_request -> http_outcome) (nows : list datetime)
  : M unit :=
  match nows with
  | [] => ret tt
  | now :: later =>
      check_reminders uuid4 network now ;; run_scheduler uuid4 network later
  end.

(** A reminder is due at one of the clock readings. *)
Definition due_at_some (nows : list datetime) (r : reminder) : bool :=
  existsb (fun now => le (fire_at r) now) nows.

(** A POST without its request id, and the POST a reminder calls for. *)
Definition blank_id (q : http_request) : http_request :=
  {| post_url := post_url q;
     post_json := {| out_id := [];
                     out_method := out_method (post_json q);
                     out_params := out_params (post_json q) |};
     post_timeout := post_timeout q |}.

Definition delivery_of (r : reminder) : http_request :=
  let '(_, message_text, url_, context_id) := r in
  push_request [] url_ context_id message_text.

Definition request_id (q : http_request) : text := out_id (post_json q).

(** The callback URL stored with a reminder. *)
Definition callback_of (r : reminder) : text :=
  let '(_, _, url_, _) := r in url_.

Definition has_callback (r : reminder) : bool :=
  match callback_of r with [] => false | _ :: _ => true end.

Definition is_text_part (p : MessagePart) : bool :=
  match kind p with kind_text => true | _ => false end.

(** A request with the parts of its message replaced. *)
Definition with_parts (request : JSONRPCRequest) (ps : list MessagePart)
  : JSONRPCRequest :=
  {| id := id request;
     method := method request;
     params :=
       {| message := {| role := role (message (params request));
                        parts := ps;
                        messageId := messageId (message (params request)) |};
          contextId := contextId (params request);
          configuration := configuration (params request) |} |}.

Module MoreSample.
Import Sample.

Definition callback_config : PushNotificationConfig :=
  {| url := callback; token := None |}.
Definition request_with_callback : JSONRPCRequest :=
  request_of in_10_minutes (Some callback_config).
Definition no_client : world :=
  {| reminders := [(now0, str "call mom", callback, str "ctx")];
     async_http_client := false; stdout := []; posted := []; uuids := 0 |}.
Definition accepted (r : http_request) : http_outcome :=
  Response 200 (str "ok").
Definition at_9_5 : text :=
  command_at cmd (str "standup") (str "at") [9%N] [5%N].
Definition data_part : MessagePart :=
  {| kind := kind_data; part_text := None |}.
Definition text_part (t : text) : MessagePart :=
  {| kind := kind_text; part_text := Some t |}.
Definition noon : datetime := mkdt 739000 12 0 0 0.
Definition busy : world :=
  {| reminders := [(mkdt 739000 10 0 0 0, str "standup", callback, str "a");
                   (mkdt 739000 18 0 0 0, str "dinner", callback, str "b");
                   (now0, str "call mom", callback, str "ctx")];
     async_http_client := true; stdout := []; posted := []; uuids := 3 |}.

End MoreSample.

(** * Properties *)

(** ** The matcher against the declarative reading of a pattern *)

Module ReFacts.
Local Open Scope nat_scope.

Lemma within_pred hi n :
  more_allowed hi = true -> within (option_map pred hi) n -> within hi (S n).
Proof.
  destruct hi as [[|h]|]; simpl; try discriminate; intros; lia.
Qed.

Lemma within_S hi n :
  within hi (S n) -> more_allowed hi = true /\ within (option_map pred hi) n.
Proof.
  destruct hi as [[|h]|]; simpl; intros; split; auto; lia.
Qed.

(** Whatever a repetition returns comes from the rest of the pattern, run
    after a run of [p]-characters of an allowed length. *)
Lemma rep_sound {A} g p (k : text -> option A) s :
  forall lo hi x,
    rep g lo hi p s k = Some x ->
    exists u s', s = u ++ s' /\ forallb p u = true /\
                 lo <= length u /\ within hi (length u) /\ k s' = Some x.
Proof.
  induction s as [|c s IH]; intros lo hi x H.
  - exists [], []. simpl in H.
    destruct lo; [|destruct g; discriminate].
    assert (k [] = Some x) by (destruct g; [exact H | destruct (k []); congruence]).
    repeat split; simpl; auto. destruct hi; simpl; lia.
  - simpl in H.
    assert (Hcases :
      (lo = 0 /\ k (c :: s) = Some x) \/
      (p c && more_allowed hi = true /\
       rep g (pred lo) (option_map pred hi) p s k = Some x)).
    { destruct (p c && more_allowed hi) eqn:E.
      - destruct g.
        + destruct (rep true (pred lo) (option_map pred hi) p s k) eqn:R.
          * right. split; congruence.
          * destruct lo; [left; auto | discriminate].
        + destruct lo.
          * destruct (k (c :: s)) eqn:K; [left; split; congruence | right; auto].
          * right; auto.
      - destruct lo.
        + left. split; auto. destruct g; auto. destruct (k (c :: s)); congruence.
        + destruct g; discriminate. }
    destruct Hcases as [[-> K] | [E R]].
    + exists [], (c :: s). repeat split; simpl; auto. destruct hi; simpl; lia.
    + apply andb_true_iff in E as [Pc Hm].
      apply IH in R as (u & s' & -> & Fu & Hlo & Hhi & K).
      exists (c :: u), s'. simpl. rewrite Pc, Fu.
      repeat split; auto; [lia | apply within_pred; auto].
Qed.

(** A repetition finds a continuation that succeeds after some allowed run,
    whatever else it tries first. *)
Lemma rep_complete {A} g p (k : text -> option A) u :
  forall lo hi s',
    forallb p u = true -> lo <= length u -> within hi (length u) ->
    k s' <> None -> rep g lo hi p (u ++ s') k <> None.
Proof.
  induction u as [|c u IH]; intros lo hi s' Fu Hlo Hhi K.
  - simpl in *. assert (lo = 0) by lia. subst lo.
    destruct s' as [|d s']; simpl.
    + destruct g; destruct (k []); congruence.
    + destruct (k (d :: s')) eqn:Kd; [|congruence].
      destruct g; [|congruence].
      destruct (p d && more_allowed hi); [|congruence].
      destruct (rep true 0 (option_map pred hi) p s' k); congruence.
  - simpl in Fu. apply andb_true_iff in Fu as [Pc Fu].
    simpl in Hhi. apply within_S in Hhi as [Hm Hhi].
    assert (R : rep g (pred lo) (option_map pred hi) p (u ++ s') k <> None)
      by (apply IH; auto; simpl in Hlo; lia).
    simpl. rewrite Pc, Hm. simpl.
    destruct (rep g (pred lo) (option_map pred hi) p (u ++ s') k) eqn:E;
      [|congruence].
    destruct g; [congruence|].
    destruct lo; [|congruence]. destruct (k (c :: u ++ s')); congruence.
Qed.

Lemma firstn_consumed (u s' : text) :
  firstn (length (u ++ s') - length s') (u ++ s') = u.
Proof.
  rewrite length_app.
  replace (length u + length s' - length s')%nat with (length u + 0)%nat by lia.
  rewrite firstn_app_2. simpl. apply app_nil_r.
Qed.

Lemma mtch_sound r :
  forall s acc out,
    mtch r s acc = Some out ->
    exists m rest caps, s = m ++ rest /\ matches r m caps /\ out = acc ++ caps.
Proof.
  induction r as [|i r IH]; intros s acc out H.
  - simpl in H. injection H as <-. exists [], s, []. simpl.
    rewrite app_nil_r. auto.
  - destruct i as [p | g lo hi p | g lo hi p]; simpl in H.
    + destruct s as [|c s]; [discriminate|].
      destruct (p c) eqn:Pc; [|discriminate].
      apply IH in H as (m & rest & caps & -> & Hm & ->).
      exists (c :: m), rest, caps. simpl. repeat split; eauto.
    + apply rep_sound in H as (u & s' & -> & Fu & Hlo & Hhi & K).
      apply IH in K as (m & rest & caps & -> & Hm & ->).
      exists (u ++ m), rest, caps. rewrite app_assoc. repeat split; auto.
      simpl. exists u, m. auto.
    + apply rep_sound in H as (u & s' & -> & Fu & Hlo & Hhi & K).
      rewrite firstn_consumed in K.
      apply IH in K as (m & rest & caps & -> & Hm & ->).
      exists (u ++ m), rest, (u :: caps). rewrite app_assoc.
      repeat split; auto.
      * simpl. exists u, m, caps. auto 10.
      * rewrite <- app_assoc. reflexivity.
Qed.

Lemma mtch_complete r :
  forall m caps rest acc,
    matches r m caps -> mtch r (m ++ rest) acc <> None.
Proof.
  induction r as [|i r IH]; intros m caps rest acc H.
  - simpl. congruence.
  - destruct i as [p | g lo hi p | g lo hi p]; simpl in H.
    + destruct H as (c & m' & -> & Pc & H). simpl. rewrite Pc. eauto.
    + destruct H as (u & m' & -> & Fu & Hlo & Hhi & H). simpl.
      rewrite <- app_assoc. apply rep_complete; eauto.
    + destruct H as (u & m' & caps' & -> & -> & Fu & Hlo & Hhi & H). simpl.
      rewrite <- app_assoc. apply rep_complete; eauto.
Qed.

(** [re.search] returns the groups of an occurrence of the pattern. *)
Lemma search_sound r s :
  forall out,
    search r s = Some out ->
    exists pre m rest, s = pre ++ m ++ rest /\ matches r m out.
Proof.
  induction s as [|c s IH]; intros out H; simpl in H.
  - destruct (mtch r [] []) eqn:E; [|discriminate]. injection H as <-.
    apply mtch_sound in E as (m & rest & caps & Hs & Hm & ->).
    exists [], m, rest. auto.
  - destruct (mtch r (c :: s) []) eqn:E.
    + injection H as <-.
      apply mtch_sound in E as (m & rest & caps & Hs & Hm & ->).
      exists [], m, rest. auto.
    + apply IH in H as (pre & m & rest & -> & Hm).
      exists (c :: pre), m, rest. auto.
Qed.

(** [re.search] finds an occurrence whenever there is one. *)
Lemma search_complete r m caps pre rest :
  matches r m caps -> search r (pre ++ m ++ rest) <> None.
Proof.
  intros H. induction pre as [|c pre IH].
  - simpl. pose proof (mtch_complete r m caps rest [] H) as Hc.
    destruct (m ++ rest); simpl; destruct (mtch r _ []); congruence.
  - simpl. destruct (mtch r (c :: pre ++ m ++ rest) []); congruence.
Qed.

(** Surrounding text never hides an occurrence. *)
Lemma search_embedded r s p q :
  search r s <> None -> search r (p ++ s ++ q) <> None.
Proof.
  intros H. destruct (search r s) as [out|] eqn:E; [|congruence].
  apply search_sound in E as (pre & m & rest & -> & Hm).
  replace (p ++ (pre ++ m ++ rest) ++ q)
    with ((p ++ pre) ++ m ++ (rest ++ q))
    by (repeat rewrite <- app_assoc; reflexivity).
  eapply search_complete; eauto.
Qed.

End ReFacts.

(** ** Datetime arithmetic and order *)

Module DatetimeFacts.
Local Open Scope Z_scope.

Lemma lex_compare_opp a :
  forall b, length a = length b ->
            lex_compare b a = CompOpp (lex_compare a b).
Proof.
  induction a as [|x a IH]; intros [|y b] L; simpl in *; try discriminate; auto.
  rewrite (Z.compare_antisym x y).
  destruct (x ?= y); simpl; auto.
Qed.

Lemma compare_opp a b : compare b a = CompOpp (compare a b).
Proof. apply lex_compare_opp. reflexivity. Qed.

(** [a <= b] and [a > b] are complementary. *)
Lemma le_gt a b : le a b = negb (gt a b).
Proof.
  unfold le, gt, lt. rewrite (compare_opp a b).
  destruct (compare a b); reflexivity.
Qed.

Lemma compare_timestamp a b :
  valid a -> valid b ->
  compare a b = (timestamp a ?= timestamp b).
Proof.
  intros Va Vb. destruct a as [o1 h1 m1 s1 u1], b as [o2 h2 m2 s2 u2].
  unfold valid, compare, fields, timestamp in *; simpl in *.
  symmetry.
  destruct (Z.compare_spec o1 o2);
    [destruct (Z.compare_spec h1 h2);
     [destruct (Z.compare_spec m1 m2);
      [destruct (Z.compare_spec s1 s2);
       [destruct (Z.compare_spec u1 u2)|..]|..]|..]|..];
    subst;
    first [ apply Z.compare_eq_iff; lia
          | apply Z.compare_lt_iff; lia
          | apply Z.compare_gt_iff; lia ].
Qed.

Lemma lt_timestamp a b :
  valid a -> valid b -> (lt a b = true <-> timestamp a < timestamp b).
Proof.
  intros Va Vb. unfold lt. rewrite compare_timestamp by assumption.
  destruct (Z.compare_spec (timestamp a) (timestamp b));
    split; intros; try discriminate; try lia; auto.
Qed.

Lemma le_timestamp a b :
  valid a -> valid b -> (le a b = true <-> timestamp a <= timestamp b).
Proof.
  intros Va Vb. unfold le. rewrite compare_timestamp by assumption.
  destruct (Z.compare_spec (timestamp a) (timestamp b));
    split; intros; try discriminate; try lia; auto.
Qed.

(** Two valid datetimes at the same instant are the same value. *)
Lemma timestamp_inj a b :
  valid a -> valid b -> timestamp a = timestamp b -> a = b.
Proof.
  intros Va Vb E. destruct a as [o1 h1 m1 s1 u1], b as [o2 h2 m2 s2 u2].
  unfold valid, timestamp in *; simpl in *.
  assert (u1 = u2 /\ s1 = s2 /\ m1 = m2 /\ h1 = h2 /\ o1 = o2) by lia.
  intuition congruence.
Qed.

Lemma add_spec t d t' :
  valid t -> forward d -> add t d = Ok t' ->
  valid t' /\ timestamp t' = timestamp t + span_us d.
Proof.
  intros Vt Fd H. unfold add in H.
  destruct t as [o h m s u], d as [dd ds du].
  unfold valid, forward, timestamp, span_us in *; simpl in *.
  set (us := u + du) in *.
  set (secs := h * 3600 + m * 60 + s + ds + us / 1000000) in *.
  set (rem := secs mod 86400) in *.
  destruct ((0 <? o + dd + secs / 86400) &&
            (o + dd + secs / 86400 <=? MAXORDINAL)) eqn:E; [|discriminate].
  injection H as <-. simpl.
  apply andb_true_iff in E as [E1 E2].
  apply Z.ltb_lt in E1. apply Z.leb_le in E2.
  pose proof (Z.div_mod us 1000000 ltac:(lia)) as Hus.
  pose proof (Z.mod_pos_bound us 1000000 ltac:(lia)) as Busm.
  pose proof (Z.div_mod secs 86400 ltac:(lia)) as Hs.
  pose proof (Z.mod_pos_bound secs 86400 ltac:(lia)) as Bs.
  fold rem in Hs, Bs.
  pose proof (Z.div_mod rem 3600 ltac:(lia)) as Hr.
  pose proof (Z.mod_pos_bound rem 3600 ltac:(lia)) as Br.
  pose proof (Z.div_mod (rem mod 3600) 60 ltac:(lia)) as Hq.
  pose proof (Z.mod_pos_bound (rem mod 3600) 60 ltac:(lia)) as Bq.
  assert (Hm60 : (rem mod 3600) mod 60 = rem mod 60).
  { apply Z.mod_mod_divide. exists 60. reflexivity. }
  rewrite Hm60 in *.
  assert (0 <= rem / 3600 < 24).
  { split; [apply Z.div_pos; lia | apply Z.div_lt_upper_bound; lia]. }
  assert (0 <= rem mod 3600 / 60 < 60).
  { split; [apply Z.div_pos; lia | apply Z.div_lt_upper_bound; lia]. }
  unfold MAXORDINAL in *.
  repeat split; try lia.
Qed.

(** When the sum is a representable instant the addition does not raise. *)
Lemma add_ok t d :
  valid t -> forward d ->
  timestamp t + span_us d < (MAXORDINAL + 1) * 86400000000 ->
  exists t', add t d = Ok t'.
Proof.
  intros Vt Fd B. unfold add.
  destruct t as [o h m s u], d as [dd ds du].
  unfold valid, forward, timestamp, span_us in *; simpl in *.
  set (us := u + du) in *.
  set (secs := h * 3600 + m * 60 + s + ds + us / 1000000) in *.
  pose proof (Z.div_mod us 1000000 ltac:(lia)) as Hus.
  pose proof (Z.mod_pos_bound us 1000000 ltac:(lia)) as Busm.
  pose proof (Z.div_mod secs 86400 ltac:(lia)) as Hs.
  pose proof (Z.mod_pos_bound secs 86400 ltac:(lia)) as Bs.
  assert (0 <= us / 1000000) by (apply Z.div_pos; lia).
  assert (0 <= secs / 86400) by (apply Z.div_pos; lia).
  unfold MAXORDINAL in *.
  assert (E : (0 <? o + dd + secs / 86400) &&
              (o + dd + secs / 86400 <=? 3652059) = true).
  { apply andb_true_iff. split; [apply Z.ltb_lt | apply Z.leb_le]; lia. }
  rewrite E. eauto.
Qed.

Lemma timedelta_minutes_spec n d :
  0 <= n -> timedelta_minutes n = Ok d ->
  forward d /\ span_us d = n * 60000000.
Proof.
  intros Hn H. unfold timedelta_minutes in H.
  destruct (999999999 <? Z.abs (n / 1440)); [discriminate|].
  injection H as <-. unfold forward, span_us; simpl.
  pose proof (Z.div_mod n 1440 ltac:(lia)).
  pose proof (Z.mod_pos_bound n 1440 ltac:(lia)).
  assert (0 <= n / 1440) by (apply Z.div_pos; lia).
  repeat split; lia.
Qed.

Lemma timedelta_minutes_ok n :
  0 <= n -> n / 1440 <= 999999999 -> exists d, timedelta_minutes n = Ok d.
Proof.
  intros Hn B. unfold timedelta_minutes.
  assert (0 <= n / 1440) by (apply Z.div_pos; lia).
  rewrite Z.abs_eq by assumption.
  destruct (Z.ltb_spec 999999999 (n / 1440)); [lia | eauto].
Qed.

Lemma replace_spec t h m t' :
  replace t h m 0 0 = Ok t' ->
  0 <= h <= 23 /\ 0 <= m <= 59 /\ t' = mkdt (ordinal t) h m 0 0.
Proof.
  unfold replace. intros H.
  destruct ((0 <=? h) && (h <=? 23)) eqn:Eh; simpl in H; [|discriminate].
  destruct ((0 <=? m) && (m <=? 59)) eqn:Em; simpl in H; [|discriminate].
  injection H as <-.
  apply andb_true_iff in Eh as [? ?]. apply andb_true_iff in Em as [? ?].
  repeat split; try apply Z.leb_le; auto.
Qed.

Lemma replace_ok t h m :
  0 <= h <= 23 -> 0 <= m <= 59 ->
  replace t h m 0 0 = Ok (mkdt (ordinal t) h m 0 0).
Proof.
  intros Hh Hm. unfold replace.
  assert (Eh : (0 <=? h) && (h <=? 23) = true)
    by (apply andb_true_iff; split; apply Z.leb_le; lia).
  assert (Em : (0 <=? m) && (m <=? 59) = true)
    by (apply andb_true_iff; split; apply Z.leb_le; lia).
  rewrite Eh, Em. reflexivity.
Qed.

Lemma forward_one_day : forward (timedelta_days 1).
Proof. unfold forward, timedelta_days; simpl. lia. Qed.

(** Adding one day to a datetime on the minute keeps the time of day. *)
Lemma add_one_day o h m :
  0 <= h <= 23 -> 0 <= m <= 59 -> 0 < o + 1 <= MAXORDINAL ->
  add (mkdt o h m 0 0) (timedelta_days 1) = Ok (mkdt (o + 1) h m 0 0).
Proof.
  intros Hh Hm Ho.
  assert (V : valid (mkdt (o + 1) h m 0 0))
    by (unfold valid; simpl; lia).
  unfold add, timedelta_days; simpl.
  replace (0 + 0) with 0 by lia. change (0 / 1000000) with 0.
  change (0 mod 1000000) with 0.
  set (secs := h * 3600 + m * 60 + 0 + 0 + 0).
  assert (Hd : secs / 86400 = 0) by (apply Z.div_small; lia).
  assert (Hr : secs mod 86400 = secs) by (apply Z.mod_small; lia).
  rewrite Hd, Hr, Z.add_0_r.
  assert (E : (0 <? o + 1) && (o + 1 <=? MAXORDINAL) = true)
    by (apply andb_true_iff; split; [apply Z.ltb_lt | apply Z.leb_le]; lia).
  rewrite E. f_equal.
  assert (secs / 3600 = h).
  { symmetry. apply (Z.div_unique secs 3600 h (m * 60)); lia. }
  assert (secs mod 3600 = m * 60).
  { symmetry. apply (Z.mod_unique secs 3600 h (m * 60)); lia. }
  assert (secs mod 60 = 0).
  { symmetry. apply (Z.mod_unique secs 60 (h * 60 + m) 0); lia. }
  assert (m * 60 / 60 = m) by (apply Z.div_mul; lia).
  congruence.
Qed.

End DatetimeFacts.

(** ** The scheduler and the dispatcher *)

Section SchedulerFacts.

Variable uuid4 : nat -> text.
Variable network : http_request -> http_outcome.

Local Abbreviation send := (send_reminder_message uuid4 network).
Local Abbreviation tick := (check_reminders uuid4 network).

(** What one call of [send_reminder_message] does with an initialised
    client: one id drawn, one POST, two lines. *)
Lemma send_with_client push_url context_id message_text w :
  async_http_client w = true ->
  let req := push_request (uuid4 (uuids w)) push_url context_id
               message_text in
  send push_url context_id message_text w =
  (Ok tt,
   {| reminders := reminders w;
      async_http_client := true;
      stdout := stdout w ++
                [Sending context_id message_text;
                 match network req with
                 | Response code body =>
                     if (200 <=? code) && (code <? 300)
                     then SentOk context_id
                     else SendError context_id code body
                 | Failure e => SendException e
                 end];
      posted := posted w ++ [req];
      uuids := S (uuids w) |}).
Proof.
  intros Hc req.
  unfold send_reminder_message, bind, get_client, try_except,
    new_OutboundJSONRPCRequest, new_uuid, client_post, print, ret, bind.
  rewrite Hc. simpl. fold (reminder_text message_text).
  unfold req, push_request, reminder_text. simpl.
  destruct (network _) as [code body | e]; simpl.
  - destruct ((200 <=? code) && (code <? 300)); simpl;
      rewrite <- app_assoc, ?Hc; reflexivity.
  - rewrite <- app_assoc, ?Hc. reflexivity.
Qed.

Lemma send_without_client push_url context_id message_text w :
  async_http_client w = false ->
  send push_url context_id message_text w =
  (Ok tt,
   {| reminders := reminders w;
      async_http_client := false;
      stdout := stdout w ++ [ClientNotInitialized];
      posted := posted w;
      uuids := uuids w |}).
Proof.
  intros Hc.
  unfold send_reminder_message, bind, get_client, print. rewrite Hc.
  simpl. rewrite Hc. reflexivity.
Qed.

(** The dispatcher never raises and never touches the store or the
    client. *)
Lemma send_frame push_url context_id message_text w :
  exists w',
    send push_url context_id message_text w = (Ok tt, w') /\
    reminders w' = reminders w /\
    async_http_client w' = async_http_client w.
Proof.
  destruct (async_http_client w) eqn:Hc.
  - eexists. split; [apply send_with_client; assumption|]. simpl. auto.
  - eexists. split; [apply send_without_client; assumption|]. simpl. auto.
Qed.

Local Abbreviation tasks_of := (tasks_of uuid4 network).

Lemma gather_frame due :
  forall w, exists w',
    gather (tasks_of due) w = (Ok tt, w') /\
    reminders w' = reminders w /\
    async_http_client w' = async_http_client w.
Proof.
  induction due as [|[[[t m] u] c] due IH]; intros w.
  - exists w. auto.
  - simpl. unfold bind.
    destruct (send_frame u c m w) as (w1 & -> & R1 & C1).
    destruct (IH w1) as (w2 & -> & R2 & C2).
    exists w2. repeat split; congruence.
Qed.

Lemma gather_posts due :
  forall w, async_http_client w = true ->
    posted (snd (gather (tasks_of due) w)) =
    posted w ++ push_requests uuid4 (uuids w) due /\
    uuids (snd (gather (tasks_of due) w)) = (uuids w + length due)%nat.
Proof.
  induction due as [|[[[t m] u] c] due IH]; intros w Hc.
  - simpl. rewrite app_nil_r. split; auto.
  - simpl. unfold bind.
    rewrite (send_with_client u c m w Hc). cbv beta iota zeta.
    match goal with |- context [gather _ ?w1] =>
      set (w' := w1); destruct (IH w' eq_refl) as [P U] end.
    rewrite P, U. subst w'. cbn [posted uuids length push_requests].
    rewrite <- app_assoc. split; [reflexivity | lia].
Qed.

Lemma tick_unfold now w :
  tick now w =
  let due := due_reminders now (reminders w) in
  let w1 := {| reminders := kept_reminders now (reminders w);
               async_http_client := async_http_client w;
               stdout := stdout w; posted := posted w; uuids := uuids w |} in
  match due with
  | [] => (Ok tt, w1)
  | _ :: _ =>
      gather (tasks_of due)
        {| reminders := reminders w1;
           async_http_client := async_http_client w1;
           stdout := stdout w1 ++ [FoundDue (length due)];
           posted := posted w1; uuids := uuids w1 |}
  end.
Proof.
  unfold check_reminders, bind, get_reminders, set_reminders, print, ret.
  simpl. destruct (due_reminders now (reminders w)); reflexivity.
Qed.

Lemma tick_store now w :
  exists w', tick now w = (Ok tt, w') /\
             reminders w' = kept_reminders now (reminders w).
Proof.
  rewrite tick_unfold. cbv zeta.
  destruct (due_reminders now (reminders w)) as [|r due] eqn:E.
  - eexists. split; reflexivity.
  - match goal with |- context [gather _ ?w1] =>
      destruct (gather_frame (r :: due) w1) as (w2 & -> & R & _) end.
    exists w2. split; auto.
Qed.

Lemma due_of_kept now rs : due_reminders now (kept_reminders now rs) = [].
Proof.
  unfold due_reminders, kept_reminders.
  induction rs as [|r rs IH]; simpl; auto.
  destruct (gt (fire_at r) now) eqn:G; simpl; auto.
  rewrite DatetimeFacts.le_gt, G. simpl. exact IH.
Qed.

Lemma kept_of_kept now rs :
  kept_reminders now (kept_reminders now rs) = kept_reminders now rs.
Proof.
  unfold kept_reminders.
  induction rs as [|r rs IH]; simpl; auto.
  destruct (gt (fire_at r) now) eqn:G; simpl; auto.
  rewrite G, IH. reflexivity.
Qed.

Lemma due_kept_permutation now rs :
  Permutation (due_reminders now rs ++ kept_reminders now rs) rs.
Proof.
  unfold due_reminders, kept_reminders.
  induction rs as [|r rs IH]; simpl; auto.
  rewrite DatetimeFacts.le_gt.
  destruct (gt (fire_at r) now); simpl.
  - apply Permutation_sym, Permutation_cons_app, Permutation_sym, IH.
  - constructor. exact IH.
Qed.

(** C4. The due scan of [check_reminders] partitions the store: the
    reminders with a fire time at or before [now] are taken out and handed
    to the dispatcher, those with a later fire time stay, each exactly as
    often as it was stored; a second scan at the same [now] finds nothing
    due and leaves the whole state as it is. *)
Theorem check_reminders_partitions now w :
  exists w',
    tick now w = (Ok tt, w') /\
    reminders w' = kept_reminders now (reminders w) /\
    Permutation (due_reminders now (reminders w) ++ reminders w')
                (reminders w) /\
    (forall r, In r (due_reminders now (reminders w)) <->
               In r (reminders w) /\ le (fire_at r) now = true) /\
    (forall r, In r (reminders w') <->
               In r (reminders w) /\ gt (fire_at r) now = true) /\
    (forall r, In r (due_reminders now (reminders w)) ->
               ~ In r (reminders w')) /\
    due_reminders now (reminders w') = [] /\
    tick now w' = (Ok tt, w').
Proof.
  destruct (tick_store now w) as (w' & Ht & Hr).
  exists w'. rewrite Hr.
  split; [exact Ht|]. split; [reflexivity|].
  split; [apply due_kept_permutation|].
  split; [intros r; apply filter_In|].
  split; [intros r; apply filter_In|].
  split.
  - intros r Hd Hk.
    apply filter_In in Hd as [_ Hd]. apply filter_In in Hk as [_ Hk].
    rewrite DatetimeFacts.le_gt, Hk in Hd. discriminate.
  - split; [apply due_of_kept|].
    rewrite tick_unfold. cbv zeta. rewrite Hr, due_of_kept, kept_of_kept.
    rewrite <- Hr. destruct w'; reflexivity.
Qed.



End SchedulerFacts.

(** ** The parser and the endpoint on arbitrary text *)

Section ParserFacts.

Variable D : char -> option N.
Variable strftime : datetime -> text.

Local Abbreviation parse := (parse_reminder_text D).
Local Abbreviation endpoint := (a2a_endpoint D strftime).

Lemma int_digits_nonneg s :
  forall acc n, 0 <= acc -> int_digits D acc s = Ok n -> 0 <= n.
Proof.
  induction s as [|c s IH]; intros acc n Ha H; cbn [int_digits] in H.
  - injection H as <-. exact Ha.
  - destruct (D c) as [d|]; [|discriminate].
    eapply IH; [|exact H]. lia.
Qed.

Lemma int_nonneg s n : int D s = Ok n -> 0 <= n.
Proof.
  unfold int. destruct s as [|c s]; [discriminate|].
  destruct (Nat.ltb _ _); [discriminate|].
  apply int_digits_nonneg. lia.
Qed.

(** The parser returns "unrecognized" exactly when neither pattern occurs
    in the text. *)
Lemma parse_unrecognized now t :
  parse now t = Ok None <->
  search (pattern_A D) t = None /\ search (pattern_B D) t = None.
Proof.
  unfold parse_reminder_text. split.
  - intros H. destruct (search (pattern_A D) t) as [m|].
    + exfalso. unfold rbind in H.
      destruct (int D (group m 2)); [|discriminate].
      destruct (timedelta_minutes a); [|discriminate].
      destruct (add now a0); discriminate.
    + split; auto. destruct (search (pattern_B D) t) as [m|]; auto.
      exfalso. unfold rbind in H.
      destruct (int D (group m 2)); [|discriminate].
      destruct (int D (group m 3)); [|discriminate].
      destruct (replace now a a0 0 0); [|discriminate].
      destruct (lt a1 now); [|discriminate].
      destruct (add a1 (timedelta_days 1)); discriminate.
  - intros [-> ->]. reflexivity.
Qed.

(** C6. Whenever the parser returns a reminder, its fire time is a valid
    datetime that is strictly later than the [now] of the call, with two
    exceptions in which it is [now] itself: an [in N minutes] command with
    [N = 0], and an [at H:MM] command when [now] is exactly H:MM:00.000000.
    It is never earlier than [now]. *)
Theorem fire_time_is_later_unless_exactly_now now txt msg t :
  valid now ->
  parse now txt = Ok (Some (msg, t)) ->
  valid t /\ le now t = true /\ timestamp now <= timestamp t /\
  (lt now t = true \/ t = now) /\
  (t = now <->
   (exists out, search (pattern_A D) txt = Some out /\
                int D (group out 2) = Ok 0) \/
   (search (pattern_A D) txt = None /\
    exists out h m, search (pattern_B D) txt = Some out /\
                    int D (group out 2) = Ok h /\
                    int D (group out 3) = Ok m /\
                    now = mkdt (ordinal now) h m 0 0)).
Proof.
  intros Vn H. unfold parse_reminder_text in H.
  destruct (search (pattern_A D) txt) as [out|] eqn:SA.
  - unfold rbind in H.
    destruct (int D (group out 2)) as [n|] eqn:En; [|discriminate].
    destruct (timedelta_minutes n) as [d|] eqn:Ed; [|discriminate].
    destruct (add now d) as [t'|] eqn:Et; [|discriminate].
    injection H as _ <-.
    pose proof (int_nonneg _ _ En) as Hn.
    apply DatetimeFacts.timedelta_minutes_spec in Ed as [Fd Sd]; auto.
    apply DatetimeFacts.add_spec in Et as [Vt Tt]; auto.
    rewrite Sd in Tt.
    split; [exact Vt|].
    split; [apply DatetimeFacts.le_timestamp; auto; lia|].
    split; [lia|]. split.
    + destruct (Z.eq_dec n 0) as [->|Hnz].
      * right. apply DatetimeFacts.timestamp_inj; auto. lia.
      * left. apply DatetimeFacts.lt_timestamp; auto. lia.
    + split.
      * intros E. left. exists out. split; [reflexivity|].
        rewrite En. f_equal. rewrite E in Tt. lia.
      * intros [(out' & S' & I') | (C & _)]; [|discriminate].
        injection S' as <-. rewrite En in I'. injection I' as ->.
        apply DatetimeFacts.timestamp_inj; auto. lia.
  - destruct (search (pattern_B D) txt) as [out|] eqn:SB; [|discriminate].
    unfold rbind in H.
    destruct (int D (group out 2)) as [h|] eqn:Eh; [|discriminate].
    destruct (int D (group out 3)) as [mi|] eqn:Emi; [|discriminate].
    destruct (replace now h mi 0 0) as [t0|] eqn:Er; [|discriminate].
    apply DatetimeFacts.replace_spec in Er as (Hh & Hm & ->).
    assert (V0 : valid (mkdt (ordinal now) h mi 0 0))
      by (unfold valid in *; simpl; lia).
    destruct (lt _ now) eqn:L.
    + destruct (add _ (timedelta_days 1)) as [t'|] eqn:Et; [|discriminate].
      injection H as _ <-.
      apply DatetimeFacts.add_spec in Et as [Vt Tt];
        auto using DatetimeFacts.forward_one_day.
      assert (S1 : timestamp now < timestamp t').
      { rewrite Tt.
        unfold timestamp, span_us, timedelta_days, valid in *; simpl in *.
        lia. }
      split; [exact Vt|].
      split; [apply DatetimeFacts.le_timestamp; auto; lia|].
      split; [lia|].
      split; [left; apply DatetimeFacts.lt_timestamp; auto|].
      split.
      * intros E. rewrite E in S1. lia.
      * intros [(out' & S' & _) | (_ & out' & h' & m' & S' & Ih & Im & E)];
          [discriminate|].
        injection S' as <-. rewrite Eh in Ih. rewrite Emi in Im.
        injection Ih as <-. injection Im as <-.
        rewrite <- E in L.
        apply DatetimeFacts.lt_timestamp in L; auto. lia.
    + injection H as _ <-.
      assert (S1 : timestamp now <= timestamp (mkdt (ordinal now) h mi 0 0)).
      { destruct (Z.lt_ge_cases (timestamp (mkdt (ordinal now) h mi 0 0))
                    (timestamp now)) as [C|C]; [|lia].
        apply DatetimeFacts.lt_timestamp in C; auto. congruence. }
      split; [exact V0|].
      split; [apply DatetimeFacts.le_timestamp; auto|].
      split; [exact S1|]. split.
      * destruct (Z.eq_dec (timestamp now)
                    (timestamp (mkdt (ordinal now) h mi 0 0))) as [E|E].
        -- right. symmetry. apply DatetimeFacts.timestamp_inj; auto.
        -- left. apply DatetimeFacts.lt_timestamp; auto. lia.
      * split.
        -- intros E. right. split; [reflexivity|].
           exists out, h, mi. repeat split; auto.
        -- intros [(out' & S' & _) | (_ & out' & h' & m' & S' & Ih & Im & E)];
             [discriminate|].
           injection S' as <-. rewrite Eh in Ih. rewrite Emi in Im.
           injection Ih as <-. injection Im as <-. auto.
Qed.

(** C9. When the text of the request (the stripped text of its first text
    part, or the empty string) contains neither pattern, the endpoint
    answers with the fixed usage-help message and the whole state, the
    reminder store included, is as before. *)
Theorem unrecognized_gets_help now request w t :
  first_text (parts (message (params request))) = Ok t ->
  search (pattern_A D) t = None ->
  search (pattern_B D) t = None ->
  endpoint now request w = (Ok (reply_of request help_reply), w).
Proof.
  intros Ht HA HB.
  assert (P : parse now t = Ok None) by (apply parse_unrecognized; auto).
  unfold a2a_endpoint, bind, lift, ret. rewrite Ht, P. reflexivity.
Qed.

(** Without a usable callback URL the endpoint never adds to the store,
    whether it answers or raises. *)
Lemma no_url_no_reminder now request w :
  match pushNotificationConfig (configuration (params request)) with
  | None => True
  | Some c => url c = []
  end ->
  reminders (snd (endpoint now request w)) = reminders w.
Proof.
  intros Hu. unfold a2a_endpoint, bind, lift, ret.
  destruct (first_text _) as [t|]; [|reflexivity].
  destruct (parse now t) as [[[m rt]|]|]; try reflexivity.
  destruct (pushNotificationConfig _) as [c|]; [|reflexivity].
  rewrite Hu. reflexivity.
Qed.

(** With a callback configuration whose URL is empty, a recognised command
    is answered with the explanatory message. *)
Lemma empty_url_is_explained now request w t c m rt :
  first_text (parts (message (params request))) = Ok t ->
  parse now t = Ok (Some (m, rt)) ->
  pushNotificationConfig (configuration (params request)) = Some c ->
  url c = [] ->
  exists w',
    endpoint now request w = (Ok (reply_of request missing_url_reply), w') /\
    reminders w' = reminders w.
Proof.
  intros Ht Hp Hc Hu. unfold a2a_endpoint, bind, lift, ret.
  rewrite Ht, Hp, Hc, Hu. simpl. eexists. split; reflexivity.
Qed.

(** Without any callback configuration a recognised command always ends
    in the [AttributeError] of [None.url], with the state as before. *)
Lemma no_config_raises now request w t m rt :
  first_text (parts (message (params request))) = Ok t ->
  parse now t = Ok (Some (m, rt)) ->
  pushNotificationConfig (configuration (params request)) = None ->
  endpoint now request w = (Raise AttributeError, w).
Proof.
  intros Ht Hp Hc. unfold a2a_endpoint, bind, lift, ret.
  rewrite Ht, Hp, Hc. reflexivity.
Qed.

End ParserFacts.

(** ** Where the patterns can occur in a well-formed command *)

Module CommandFacts.
Local Open Scope nat_scope.

Ltac bprop :=
  repeat rewrite ?orb_true_iff, ?andb_true_iff, ?orb_false_iff,
    ?andb_false_iff, ?negb_true_iff, ?negb_false_iff, ?N.eqb_eq, ?N.eqb_neq,
    ?N.leb_le, ?N.leb_gt in *.

Lemma literal_cases l c :
  literal_ignorecase l c = true ->
  (c = l \/ (is_ascii_lower l = true /\
     (c = 305 \/ c = 383 \/ c = 304 \/ c = 8490 \/ (65 <= c <= 90))))%N.
Proof.
  unfold literal_ignorecase, ignorecase_fixes, sre_lower_unicode, mem.
  destruct (is_ascii_lower l) eqn:L.
  - destruct (l =? 105)%N; [| destruct (l =? 115)%N]; simpl;
    destruct ((65 <=? c) && (c <=? 90))%N eqn:E1;
    try destruct (c =? 304)%N eqn:E2;
    try destruct (c =? 8490)%N eqn:E3;
    bprop; intros; lia.
  - bprop. auto.
Qed.

(** A character that matches a letter or the slash is neither a quote nor
    white space nor a line feed. *)
Lemma wordchar_match l c :
  wordchar l = true -> literal_ignorecase l c = true ->
  c <> quote /\ Py_UNICODE_ISSPACE c = false.
Proof.
  intros W H. apply literal_cases in H.
  unfold wordchar, is_ascii_lower, Py_UNICODE_ISSPACE, quote, slash in *.
  bprop. lia.
Qed.

Lemma exact_literal l c :
  is_ascii_lower l = false -> literal_ignorecase l c = true -> c = l.
Proof.
  unfold literal_ignorecase. intros ->. apply N.eqb_eq.
Qed.

Lemma ci_match_length kw : forall K, ci_match kw K = true -> length K = length kw.
Proof.
  induction kw as [|l kw IH]; intros [|c K] H; simpl in H; try discriminate; auto.
  apply andb_true_iff in H as [_ H]. simpl. f_equal. auto.
Qed.

Lemma ci_match_chars kw :
  forall K, forallb wordchar kw = true -> ci_match kw K = true ->
    Forall (fun c => c <> quote /\ Py_UNICODE_ISSPACE c = false) K.
Proof.
  induction kw as [|l kw IH]; intros [|c K] W H; simpl in *; try discriminate.
  - constructor.
  - apply andb_true_iff in W as [W1 W2]. apply andb_true_iff in H as [H1 H2].
    constructor; [eapply wordchar_match; eauto | apply IH; auto].
Qed.

(** Lists *)

Lemma split_at_unique (q : char) a : forall a' b b',
  a ++ q :: b = a' ++ q :: b' -> ~ In q a -> ~ In q a' -> a = a' /\ b = b'.
Proof.
  induction a as [|x a IH]; intros [|y a'] b b' E Ha Ha'; simpl in *.
  - injection E as ->. auto.
  - injection E as -> _. tauto.
  - injection E as -> _. tauto.
  - injection E as -> E. apply IH in E as [-> ->]; tauto.
Qed.

(** A run of [p]-characters laid over a text that leaves the class at [c]
    ends at or before [c]. *)
Lemma run_bounded (p : char -> bool) u : forall x v c y,
  forallb p u = true -> u ++ x = v ++ c :: y -> p c = false ->
  exists w, v = u ++ w /\ x = w ++ c :: y.
Proof.
  induction u as [|a u IH]; intros x v c y Fu E Pc; simpl in *.
  - exists v. auto.
  - apply andb_true_iff in Fu as [Pa Fu].
    destruct v as [|b v]; simpl in E.
    + injection E as -> _. congruence.
    + injection E as -> E. destruct (IH _ _ _ _ Fu E Pc) as (w & -> & ->).
      exists w. auto.
Qed.

(** Patterns *)

Lemma matches_app r1 : forall r2 m caps,
  matches (r1 ++ r2) m caps <->
  exists m1 m2 c1 c2, m = m1 ++ m2 /\ caps = c1 ++ c2 /\
                      matches r1 m1 c1 /\ matches r2 m2 c2.
Proof.
  induction r1 as [|i r1 IH]; intros r2 m caps.
  - simpl. split.
    + intros H. exists [], m, [], caps. auto.
    + intros (m1 & m2 & c1 & c2 & -> & -> & [-> ->] & H). exact H.
  - destruct i as [p | g lo hi p | g lo hi p]; simpl; split.
    + intros (c & m' & -> & Pc & H).
      apply IH in H as (m1 & m2 & c1 & c2 & -> & -> & H1 & H2).
      exists (c :: m1), m2, c1, c2. repeat split; auto.
      exists c, m1. auto.
    + intros (m1 & m2 & c1 & c2 & -> & -> & (c & m' & -> & Pc & H1) & H2).
      exists c, (m' ++ m2). repeat split; auto.
      apply IH. exists m', m2, c1, c2. auto.
    + intros (u & m' & -> & Fu & Hlo & Hhi & H).
      apply IH in H as (m1 & m2 & c1 & c2 & -> & -> & H1 & H2).
      exists (u ++ m1), m2, c1, c2. rewrite app_assoc.
      repeat split; auto. exists u, m1. auto.
    + intros (m1 & m2 & c1 & c2 & -> & -> &
              (u & m' & -> & Fu & Hlo & Hhi & H1) & H2).
      exists u, (m' ++ m2). rewrite app_assoc. repeat split; auto.
      apply IH. exists m', m2, c1, c2. auto.
    + intros (u & m' & caps' & -> & -> & Fu & Hlo & Hhi & H).
      apply IH in H as (m1 & m2 & c1 & c2 & -> & -> & H1 & H2).
      exists (u ++ m1), m2, (u :: c1), c2. rewrite app_assoc.
      repeat split; auto. exists u, m1, c1. auto 10.
    + intros (m1 & m2 & c1 & c2 & -> & -> &
              (u & m' & caps' & -> & -> & Fu & Hlo & Hhi & H1) & H2).
      exists u, (m' ++ m2), (caps' ++ c2). rewrite app_assoc.
      repeat split; auto. apply IH. exists m', m2, caps', c2. auto.
Qed.

Lemma matches_lits kw : forall K caps,
  matches (map (fun c => Chr (literal_ignorecase c)) kw) K caps <->
  ci_match kw K = true /\ caps = [].
Proof.
  induction kw as [|l kw IH]; intros K caps; simpl.
  - split.
    + intros [-> ->]. auto.
    + destruct K; intros [H ->]; [auto | discriminate].
  - split.
    + intros (c & m' & -> & Pc & H). apply IH in H as [H ->]. rewrite Pc, H. auto.
    + destruct K as [|c K]; intros [H ->]; [discriminate|].
      apply andb_true_iff in H as [Pc H]. exists c, K. repeat split; auto.
      apply IH. auto.
Qed.

(** Counting quotes *)

Lemma cnt_app a b : cnt (a ++ b) = cnt a + cnt b.
Proof. apply count_occ_app. Qed.

Lemma cnt_quote l : cnt (quote :: l) = S (cnt l).
Proof. apply count_occ_cons_eq. reflexivity. Qed.

Lemma cnt_other c l : c <> quote -> cnt (c :: l) = cnt l.
Proof. intros. apply count_occ_cons_neq. assumption. Qed.

Lemma cnt_zero l : cnt l = 0 <-> ~ In quote l.
Proof. symmetry. apply count_occ_not_In. Qed.

Lemma space_not_quote c : Py_UNICODE_ISSPACE c = true -> c <> quote.
Proof. unfold Py_UNICODE_ISSPACE, quote. bprop. lia. Qed.

Lemma spaces_no_quote u : forallb Py_UNICODE_ISSPACE u = true -> cnt u = 0.
Proof.
  intros F. apply cnt_zero. intros I.
  rewrite forallb_forall in F. apply F in I.
  apply space_not_quote in I. congruence.
Qed.

Lemma keyword_no_quote kw K :
  forallb wordchar kw = true -> ci_match kw K = true -> cnt K = 0.
Proof.
  intros W H. apply cnt_zero. intros I.
  pose proof (ci_match_chars kw K W H) as F.
  rewrite Forall_forall in F. apply F in I. tauto.
Qed.

(** In a command whose message and remainder have no quote, the shared
    head of the patterns can only sit on the command's own head, and its
    group is the message. *)
Lemma head_unique R K1 X T pre m rest out :
  ci_match (str "/remindme") K1 = true ->
  ~ In quote X -> ~ In quote T ->
  (exists c T', T = c :: T' /\ Py_UNICODE_ISSPACE c = false) ->
  K1 ++ space :: quote :: X ++ quote :: space :: T = pre ++ m ++ rest ->
  matches (command_head ++ R) m out ->
  exists m' out', out = X :: out' /\ matches R m' out' /\ T = m' ++ rest.
Proof.
  intros HK1 HX HT (c & T' & -> & Hc) E Hm.
  apply matches_app in Hm as (m1 & m2 & c1 & c2 & -> & -> & Hh & HR).
  unfold command_head, lits in Hh.
  apply matches_app in Hh as (k & mh & ck & ch' & -> & -> & Hk & Hh).
  apply matches_lits in Hk as [Hk ->].
  simpl in Hh.
  destruct Hh as (u1 & ? & -> & Fu1 & L1 & _ & q1 & ? & -> & Pq1 &
                  M & ? & caps' & -> & -> & FM & _ & _ &
                  q2 & ? & -> & Pq2 & u2 & ? & -> & Fu2 & L2 & _ & -> & ->).
  apply exact_literal in Pq1; [|reflexivity].
  apply exact_literal in Pq2; [|reflexivity]. subst q1 q2.
  assert (C1 : cnt K1 = 0) by (eapply keyword_no_quote; eauto; reflexivity).
  assert (Ck : cnt k = 0) by (eapply keyword_no_quote; eauto; reflexivity).
  apply cnt_zero in HX, HT.
  pose proof (spaces_no_quote u1 Fu1) as Cu1.
  pose proof (spaces_no_quote u2 Fu2) as Cu2.
  pose proof (f_equal cnt E) as Ec.
  repeat (rewrite ?cnt_app, ?cnt_quote, ?(cnt_other space) in Ec
            by (unfold space, quote; discriminate); simpl app in Ec).
  replace (K1 ++ space :: quote :: X ++ quote :: space :: c :: T')
    with ((K1 ++ [space]) ++ quote :: X ++ quote :: space :: c :: T') in E
    by (rewrite <- app_assoc; reflexivity).
  replace (pre ++ ((k ++ u1 ++ quote :: M ++ quote :: u2 ++ []) ++ m2) ++ rest)
    with ((pre ++ k ++ u1) ++ quote :: M ++ quote :: u2 ++ m2 ++ rest) in E
    by (repeat (rewrite <- ?app_assoc; simpl); reflexivity).
  apply split_at_unique in E as [_ E].
  2:{ apply cnt_zero.
      rewrite cnt_app, (cnt_other space) by (unfold space, quote; discriminate).
      rewrite C1. reflexivity. }
  2:{ apply cnt_zero. rewrite !cnt_app. lia. }
  apply split_at_unique in E as [<- E].
  2:{ apply cnt_zero. lia. }
  2:{ apply cnt_zero. lia. }
  destruct u2 as [|w u2]; [simpl in L2; lia|].
  simpl in E. injection E as <- E.
  destruct u2 as [|w' u2].
  - simpl in E. exists m2, c2. simpl. auto.
  - simpl in E. injection E as <- _.
    simpl in Fu2. rewrite Hc in Fu2. simpl in Fu2. discriminate.
Qed.

End CommandFacts.
Import CommandFacts.

(** ** The two command shapes *)

Section CommandTheorems.
Local Open Scope nat_scope.

Variable D : char -> option N.
Hypothesis D_ascii : ascii_table D.

Lemma digit_char d :
  (d <? 10)%N = true ->
  let c := (48 + d)%N in
  D c = Some d /\ is_decimal D c = true /\ Py_UNICODE_ISSPACE c = false /\
  c <> quote /\ c <> colon.
Proof.
  intros Hd c. apply N.ltb_lt in Hd.
  assert (Hc : D c = Some d).
  { rewrite D_ascii by (unfold c; lia). unfold ascii_decimal, c.
    destruct ((48 <=? 48 + d) && (48 + d <=? 57))%N eqn:E.
    - f_equal. lia.
    - bprop. lia. }
  unfold is_decimal. rewrite Hc.
  unfold Py_UNICODE_ISSPACE, quote, colon, c. repeat split; try lia.
  bprop. lia.
Qed.

Lemma digit_chars ds :
  is_digits ds = true ->
  Forall (fun c => is_decimal D c = true /\ Py_UNICODE_ISSPACE c = false /\
                   c <> quote /\ c <> colon) (digits_text ds).
Proof.
  unfold is_digits, digits_text. induction ds as [|d ds IH]; simpl; intros H.
  - constructor.
  - apply andb_true_iff in H as [Hd H]. constructor; auto.
    pose proof (digit_char d Hd) as P. cbv zeta in P. tauto.
Qed.

Lemma decimal_run ds :
  is_digits ds = true -> forallb (is_decimal D) (digits_text ds) = true.
Proof.
  intros H. apply forallb_forall. intros c I.
  pose proof (digit_chars ds H) as F. rewrite Forall_forall in F.
  apply F in I. tauto.
Qed.

Lemma space_not_decimal : is_decimal D space = false.
Proof. unfold is_decimal. rewrite D_ascii by (unfold space; lia). reflexivity. Qed.

Lemma colon_not_decimal : is_decimal D colon = false.
Proof. unfold is_decimal. rewrite D_ascii by (unfold colon; lia). reflexivity. Qed.

Lemma int_digits_text ds :
  forall acc, is_digits ds = true ->
    int_digits D acc (digits_text ds) =
    Ok (fold_left (fun a d => (10 * a + Z.of_N d)%Z) ds acc).
Proof.
  unfold is_digits, digits_text.
  induction ds as [|d ds IH]; intros acc H; cbn [map int_digits fold_left].
  - reflexivity.
  - simpl in H. apply andb_true_iff in H as [Hd H].
    pose proof (digit_char d Hd) as P. cbv zeta in P. destruct P as [-> _].
    apply IH. exact H.
Qed.

Lemma int_digits_text_ok ds :
  is_digits ds = true -> ds <> [] -> length ds <= int_max_str_digits ->
  int D (digits_text ds) = Ok (digits_value ds).
Proof.
  intros H Hne Hl. unfold int.
  destruct (digits_text ds) eqn:E.
  - destruct ds; [congruence | discriminate].
  - rewrite <- E. unfold digits_text at 1. rewrite length_map.
    destruct (Nat.ltb_spec int_max_str_digits (length ds)); [lia|].
    apply int_digits_text. exact H.
Qed.

Lemma same_length_app {A} (a : list A) : forall a' b b',
  length a = length a' -> a ++ b = a' ++ b' -> a = a' /\ b = b'.
Proof.
  induction a as [|x a IH]; intros [|y a'] b b' L E; simpl in *; try discriminate; auto.
  injection E as -> E. injection L as L. destruct (IH _ _ _ L E) as [-> ->]. auto.
Qed.

(** A white-space run of the pattern laid over a single blank followed by a
    character that is not white space is that blank. *)
Lemma one_blank u x y :
  forallb Py_UNICODE_ISSPACE u = true -> 1 <= length u ->
  (exists c y', y = c :: y' /\ Py_UNICODE_ISSPACE c = false) ->
  u ++ x = space :: y -> u = [space] /\ x = y.
Proof.
  intros Fu L (c & y' & -> & Hc) E.
  destruct u as [|w u]; [simpl in L; lia|].
  simpl in E. injection E as -> E.
  destruct u as [|w u]; [auto|].
  simpl in E. injection E as -> _.
  simpl in Fu. rewrite Hc in Fu. simpl in Fu. discriminate.
Qed.

Lemma digits_head ds z :
  is_digits ds = true -> ds <> [] ->
  exists c y', digits_text ds ++ z = c :: y' /\ Py_UNICODE_ISSPACE c = false.
Proof.
  intros H Hne. pose proof (digit_chars ds H) as F.
  destruct ds as [|d ds]; [congruence|].
  cbn [digits_text map app] in *.
  inversion F as [|? ? (_ & Hd & _) _]; subst. eauto.
Qed.

Lemma not_both_i_a c :
  literal_ignorecase 105%N c = true -> literal_ignorecase 97%N c = true -> False.
Proof.
  unfold literal_ignorecase, ignorecase_fixes, sre_lower_unicode, mem. simpl.
  destruct ((65 <=? c) && (c <=? 90))%N eqn:E1;
    try destruct (c =? 304)%N eqn:E2;
    try destruct (c =? 8490)%N eqn:E3;
    bprop; intros; lia.
Qed.

Lemma tail_A_unique K2 ds K3 m' rest out' :
  ci_match (str "in") K2 = true ->
  is_digits ds = true -> ds <> [] ->
  K2 ++ space :: digits_text ds ++ space :: K3 = m' ++ rest ->
  matches (tail_A D) m' out' -> out' = [digits_text ds].
Proof.
  intros HK2 Hds Hne E Hm. unfold tail_A, lits in Hm.
  apply matches_app in Hm as (k & m1 & ck & c1 & -> & -> & Hk & Hm).
  apply matches_lits in Hk as [Hk ->].
  apply matches_app in Hm as (m2 & m3 & c2 & c3 & -> & -> & Hi & Hm).
  apply matches_app in Hm as (m4 & m5 & c4 & c5 & -> & -> & Hmin & Hs).
  apply matches_lits in Hmin as [Hmin ->].
  simpl in Hs. destruct Hs as (us & ? & -> & _ & _ & _ & -> & ->).
  simpl in Hi.
  destruct Hi as (u3 & ? & -> & Fu3 & L3 & _ & Dg & ? & caps & -> & -> &
                  FDg & LDg & _ & u4 & ? & -> & Fu4 & L4 & _ & -> & ->).
  simpl. f_equal.
  repeat rewrite <- app_assoc in E.
  apply same_length_app in E as [_ E].
  2:{ apply ci_match_length in HK2, Hk. congruence. }
  pose proof (digit_chars ds Hds) as Fds.
  symmetry in E. cbn [app] in E.
  apply one_blank in E as [-> E]; auto using digits_head.
  apply (run_bounded (is_decimal D)) in E as (w & Ew & E);
    auto using space_not_decimal.
  destruct w as [|x w].
  - rewrite app_nil_r in Ew. auto.
  - exfalso. destruct u4 as [|s u4]; [simpl in L4; lia|].
    simpl in E. injection E as -> _.
    simpl in Fu4. apply andb_true_iff in Fu4 as [Sx _].
    assert (I : In x (digits_text ds))
      by (rewrite Ew; apply in_or_app; right; left; reflexivity).
    rewrite Forall_forall in Fds. apply Fds in I. destruct I as (_ & N' & _).
    congruence.
Qed.


Lemma tail_B_unique K2 hs ms m' rest out' :
  ci_match (str "at") K2 = true ->
  is_digits hs = true -> hs <> [] ->
  is_digits ms = true -> length ms = 2 ->
  K2 ++ space :: digits_text hs ++ colon :: digits_text ms = m' ++ rest ->
  matches (tail_B D) m' out' -> out' = [digits_text hs; digits_text ms].
Proof.
  intros HK2 Hhs Hne Hms Lms E Hm. unfold tail_B, lits in Hm.
  apply matches_app in Hm as (k & m1 & ck & c1 & -> & -> & Hk & Hi).
  apply matches_lits in Hk as [Hk ->].
  simpl in Hi.
  destruct Hi as (u3 & ? & -> & Fu3 & L3 & _ & Dg1 & ? & caps & -> & -> &
                  F1 & L1 & _ & c' & ? & -> & Pc & Dg2 & ? & caps2 & -> & -> &
                  F2 & L2 & U2 & -> & ->).
  apply exact_literal in Pc; [|reflexivity]. subst c'.
  simpl.
  repeat rewrite <- app_assoc in E.
  apply same_length_app in E as [_ E].
  2:{ apply ci_match_length in HK2, Hk. congruence. }
  pose proof (digit_chars hs Hhs) as Fhs.
  symmetry in E. cbn [app] in E.
  apply one_blank in E as [-> E]; auto using digits_head.
  apply (run_bounded (is_decimal D)) in E as (w & Ew & E);
    auto using colon_not_decimal.
  destruct w as [|x w].
  - rewrite app_nil_r in Ew. subst Dg1.
    simpl in E. injection E as E.
    replace (digits_text ms) with (digits_text ms ++ []) in E
      by apply app_nil_r.
    rewrite (app_nil_r Dg2) in E.
    apply same_length_app in E as [-> _]; [reflexivity|].
    unfold digits_text. rewrite length_map. lia.
  - exfalso. simpl in E. injection E as <- _.
    assert (I : In colon (digits_text hs))
      by (rewrite Ew; apply in_or_app; right; left; reflexivity).
    rewrite Forall_forall in Fhs. apply Fhs in I. tauto.
Qed.

(** Pattern A cannot continue over the keyword [at]. *)
Lemma tail_A_not_at K2 T m' rest out' :
  ci_match (str "at") K2 = true ->
  K2 ++ T = m' ++ rest ->
  matches (tail_A D) m' out' -> False.
Proof.
  intros HK2 E Hm. unfold tail_A, lits in Hm.
  apply matches_app in Hm as (k & m1 & ck & c1 & -> & -> & Hk & _).
  apply matches_lits in Hk as [Hk _].
  destruct K2 as [|a K2]; [discriminate|].
  destruct k as [|i k]; [discriminate|].
  simpl in E. injection E as -> _.
  cbn [ci_match str map list_ascii_of_string] in HK2, Hk.
  apply andb_true_iff in HK2 as [Ha _]. apply andb_true_iff in Hk as [Hi _].
  eapply not_both_i_a; eauto.
Qed.

Lemma ci_match_app kw1 : forall kw2 K,
  ci_match (kw1 ++ kw2) K = true ->
  exists Ka Kb, K = Ka ++ Kb /\ ci_match kw1 Ka = true /\
                ci_match kw2 Kb = true.
Proof.
  induction kw1 as [|l kw1 IH]; intros kw2 K H.
  - exists [], K. auto.
  - destruct K as [|c K]; [discriminate|]. simpl in H.
    apply andb_true_iff in H as [Hc H].
    apply IH in H as (Ka & Kb & -> & H1 & H2).
    exists (c :: Ka), Kb. simpl. rewrite Hc. auto.
Qed.

Lemma plain_spec X :
  plain X = true -> ~ In quote X /\ forallb any_but_newline X = true.
Proof.
  unfold plain. intros H. rewrite forallb_forall in H. split.
  - intros I. apply H in I. unfold quote in I. simpl in I. discriminate.
  - apply forallb_forall. intros c I. apply H in I.
    apply andb_true_iff in I as [_ I]. exact I.
Qed.

Lemma matches_head K1 X :
  ci_match (str "/remindme") K1 = true -> plain X = true ->
  matches command_head (K1 ++ space :: quote :: X ++ [quote; space]) [X].
Proof.
  intros HK1 HX. apply plain_spec in HX as [_ HX].
  unfold command_head, lits. apply matches_app.
  exists K1, (space :: quote :: X ++ [quote; space]), [], [X].
  split; [reflexivity|]. split; [reflexivity|].
  split; [apply matches_lits; auto|].
  simpl. exists [space], (quote :: X ++ [quote; space]).
  repeat split; auto.
  exists quote, (X ++ [quote; space]). repeat split; auto.
  exists X, [quote; space], []. repeat split; auto; [lia|].
  exists quote, [space]. repeat split; auto.
  exists [space], []. repeat split; auto.
Qed.

Lemma matches_tail_A K2 ds K3 :
  ci_match (str "in") K2 = true ->
  is_digits ds = true -> ds <> [] ->
  ci_match (str "minutes") K3 = true ->
  matches (tail_A D) (K2 ++ space :: digits_text ds ++ space :: K3)
          [digits_text ds].
Proof.
  intros HK2 Hds Hne HK3.
  change (str "minutes") with (str "minute" ++ [ch "s"]) in HK3.
  apply ci_match_app in HK3 as (Ka & Kb & -> & Ha & Hb).
  destruct Kb as [|s [|? ?]]; simpl in Hb; try discriminate;
    [|rewrite andb_false_r in Hb; discriminate].
  rewrite andb_true_r in Hb.
  unfold tail_A, lits. apply matches_app.
  exists K2, (space :: digits_text ds ++ space :: Ka ++ [s]), [],
    [digits_text ds].
  split; [reflexivity|]. split; [reflexivity|].
  split; [apply matches_lits; auto|].
  apply matches_app.
  exists (space :: digits_text ds ++ [space]), (Ka ++ [s]),
    [digits_text ds], [].
  split; [simpl; rewrite <- app_assoc; reflexivity|].
  split; [reflexivity|]. split.
  - simpl. exists [space], (digits_text ds ++ [space]). repeat split; auto.
    exists (digits_text ds), [space], []. repeat split; auto.
    + apply decimal_run; auto.
    + unfold digits_text. rewrite length_map. destruct ds; simpl; [congruence | lia].
    + exists [space], []. repeat split; auto.
  - apply matches_app. exists Ka, [s], [], [].
    split; [reflexivity|]. split; [reflexivity|].
    split; [apply matches_lits; auto|].
    simpl. exists [s], []. simpl. rewrite Hb. repeat split; auto.
Qed.

Lemma matches_tail_B K2 hs ms :
  ci_match (str "at") K2 = true ->
  is_digits hs = true -> 1 <= length hs <= 2 ->
  is_digits ms = true -> length ms = 2 ->
  matches (tail_B D) (K2 ++ space :: digits_text hs ++ colon :: digits_text ms)
          [digits_text hs; digits_text ms].
Proof.
  intros HK2 Hhs Lhs Hms Lms.
  unfold tail_B, lits. apply matches_app.
  exists K2, (space :: digits_text hs ++ colon :: digits_text ms), [],
    [digits_text hs; digits_text ms].
  split; [reflexivity|]. split; [reflexivity|].
  split; [apply matches_lits; auto|].
  assert (Lh : length (digits_text hs) = length hs)
    by (unfold digits_text; apply length_map).
  assert (Lm : length (digits_text ms) = length ms)
    by (unfold digits_text; apply length_map).
  simpl. exists [space], (digits_text hs ++ colon :: digits_text ms).
  repeat split; auto.
  exists (digits_text hs), (colon :: digits_text ms), [digits_text ms].
  repeat split; auto; try lia.
  - apply decimal_run; auto.
  - exists colon, (digits_text ms). repeat split; auto.
    exists (digits_text ms), [], []. rewrite app_nil_r.
    repeat split; auto; try lia.
    apply decimal_run; auto.
Qed.

Lemma pattern_A_split : pattern_A D = command_head ++ tail_A D.
Proof. reflexivity. Qed.

Lemma pattern_B_split : pattern_B D = command_head ++ tail_B D.
Proof. reflexivity. Qed.


Lemma keyword_head kw K z :
  kw <> [] -> forallb wordchar kw = true -> ci_match kw K = true ->
  exists c y, K ++ z = c :: y /\ Py_UNICODE_ISSPACE c = false.
Proof.
  intros Hne W H. pose proof (ci_match_chars kw K W H) as F.
  destruct K as [|c K]; [destruct kw; [congruence | discriminate]|].
  inversion F as [|? ? [_ Hc] _]; subst. simpl. eauto.
Qed.

Lemma digits_no_quote ds : is_digits ds = true -> cnt (digits_text ds) = 0.
Proof.
  intros H. apply cnt_zero. intros I.
  pose proof (digit_chars ds H) as F. rewrite Forall_forall in F.
  apply F in I. tauto.
Qed.

(** The search over a well-formed command: the head fixes the message, and
    a remainder that the rest of the pattern can read in one way only fixes
    the other groups. *)
Lemma search_command R T X K1 caps :
  ci_match (str "/remindme") K1 = true -> plain X = true ->
  cnt T = 0 ->
  (exists c T', T = c :: T' /\ Py_UNICODE_ISSPACE c = false) ->
  matches R T caps ->
  (forall m' rest out', T = m' ++ rest -> matches R m' out' -> out' = caps) ->
  search (command_head ++ R)
         (K1 ++ space :: quote :: X ++ quote :: space :: T) = Some (X :: caps).
Proof.
  intros HK1 HX HT Hh HR Huniq.
  destruct (search _ _) as [out|] eqn:S.
  - apply ReFacts.search_sound in S as (pre & m & rest & E & Hm).
    eapply head_unique in Hm as (m' & out' & -> & Hm' & ET); eauto.
    + f_equal. f_equal. eapply Huniq; eauto.
    + apply plain_spec in HX. tauto.
    + apply cnt_zero. exact HT.
  - exfalso. revert S.
    replace (K1 ++ space :: quote :: X ++ quote :: space :: T)
      with ([] ++ ((K1 ++ space :: quote :: X ++ [quote; space]) ++ T) ++ [])
      by (simpl; rewrite app_nil_r, <- !app_assoc; simpl;
          rewrite <- app_assoc; reflexivity).
    apply (ReFacts.search_complete _ _ (X :: caps)).
    apply matches_app.
    exists (K1 ++ space :: quote :: X ++ [quote; space]), T, [X], caps.
    repeat split; auto using matches_head.
Qed.

Lemma search_command_none R T X K1 :
  ci_match (str "/remindme") K1 = true -> plain X = true ->
  cnt T = 0 ->
  (exists c T', T = c :: T' /\ Py_UNICODE_ISSPACE c = false) ->
  (forall m' rest out', T = m' ++ rest -> matches R m' out' -> False) ->
  search (command_head ++ R)
         (K1 ++ space :: quote :: X ++ quote :: space :: T) = None.
Proof.
  intros HK1 HX HT Hh Hnone.
  destruct (search _ _) as [out|] eqn:S; [|reflexivity].
  exfalso.
  apply ReFacts.search_sound in S as (pre & m & rest & E & Hm).
  eapply head_unique in Hm as (m' & out' & -> & Hm' & ET); eauto.
  - apply plain_spec in HX. tauto.
  - apply cnt_zero. exact HT.
Qed.

Lemma cnt_space_cons l : cnt (space :: l) = cnt l.
Proof. apply cnt_other. unfold space, quote. discriminate. Qed.

Lemma cnt_colon_cons l : cnt (colon :: l) = cnt l.
Proof. apply cnt_other. unfold colon, quote. discriminate. Qed.

Lemma search_A_command_in K1 X K2 ds K3 :
  ci_match (str "/remindme") K1 = true -> plain X = true ->
  ci_match (str "in") K2 = true ->
  is_digits ds = true -> ds <> [] ->
  ci_match (str "minutes") K3 = true ->
  search (pattern_A D) (command_in K1 X K2 ds K3) =
  Some [X; digits_text ds].
Proof.
  intros HK1 HX HK2 Hds Hne HK3. rewrite pattern_A_split. unfold command_in.
  apply search_command; auto.
  - rewrite cnt_app, cnt_space_cons, cnt_app, cnt_space_cons.
    rewrite (keyword_no_quote (str "in") K2), digits_no_quote,
      (keyword_no_quote (str "minutes") K3); auto.
  - apply (keyword_head (str "in"));
      [vm_compute; discriminate | reflexivity | assumption].
  - apply matches_tail_A; auto.
  - intros m' rest out' E Hm. eapply tail_A_unique; eauto.
Qed.

Lemma search_A_command_at K1 X K2 hs ms :
  ci_match (str "/remindme") K1 = true -> plain X = true ->
  ci_match (str "at") K2 = true ->
  is_digits hs = true -> is_digits ms = true ->
  search (pattern_A D) (command_at K1 X K2 hs ms) = None.
Proof.
  intros HK1 HX HK2 Hhs Hms. rewrite pattern_A_split. unfold command_at.
  apply search_command_none; auto.
  - rewrite cnt_app, cnt_space_cons, cnt_app, cnt_colon_cons.
    rewrite (keyword_no_quote (str "at") K2), !digits_no_quote; auto.
  - apply (keyword_head (str "at"));
      [vm_compute; discriminate | reflexivity | assumption].
  - intros m' rest out' E Hm. eapply tail_A_not_at; eauto.
Qed.

Lemma search_B_command_at K1 X K2 hs ms :
  ci_match (str "/remindme") K1 = true -> plain X = true ->
  ci_match (str "at") K2 = true ->
  is_digits hs = true -> 1 <= length hs <= 2 ->
  is_digits ms = true -> length ms = 2 ->
  search (pattern_B D) (command_at K1 X K2 hs ms) =
  Some [X; digits_text hs; digits_text ms].
Proof.
  intros HK1 HX HK2 Hhs Lhs Hms Lms. rewrite pattern_B_split.
  unfold command_at.
  assert (Hne : hs <> []) by (destruct hs; simpl in Lhs; [lia | discriminate]).
  apply search_command; auto.
  - rewrite cnt_app, cnt_space_cons, cnt_app, cnt_colon_cons.
    rewrite (keyword_no_quote (str "at") K2), !digits_no_quote; auto.
  - apply (keyword_head (str "at"));
      [vm_compute; discriminate | reflexivity | assumption].
  - apply matches_tail_B; auto.
  - intros m' rest out' E Hm. eapply tail_B_unique; eauto.
Qed.


Lemma digits_value_nonneg ds : (0 <= digits_value ds)%Z.
Proof.
  unfold digits_value.
  assert (G : forall acc, (0 <= acc)%Z ->
            (0 <= fold_left (fun a d => (10 * a + Z.of_N d)%Z) ds acc)%Z).
  { induction ds as [|d ds IH]; intros acc Ha; cbn [fold_left]; auto.
    apply IH. lia. }
  apply G. lia.
Qed.

(** C5. A command [/remindme "X" in N minutes] -- its keywords in any
    letter case, [X] without a double quote or a line feed, [N] written in
    at most 4300 ASCII digits -- parses to the message [X] and to the
    fire time that lies exactly [N] minutes after [now], provided that
    instant is still a representable date. *)
Theorem in_minutes_is_now_plus_minutes K1 X K2 ds K3 now :
  valid now ->
  ci_match (str "/remindme") K1 = true -> plain X = true ->
  ci_match (str "in") K2 = true ->
  is_digits ds = true -> ds <> [] -> length ds <= int_max_str_digits ->
  ci_match (str "minutes") K3 = true ->
  (timestamp now + digits_value ds * 60000000
   < (MAXORDINAL + 1) * 86400000000)%Z ->
  exists t,
    parse_reminder_text D now (command_in K1 X K2 ds K3) = Ok (Some (X, t)) /\
    valid t /\
    (timestamp t = timestamp now + digits_value ds * 60000000)%Z.
Proof.
  intros Vn HK1 HX HK2 Hds Hne Hl HK3 B.
  unfold parse_reminder_text.
  rewrite search_A_command_in by assumption.
  cbn [group pred nth].
  rewrite int_digits_text_ok by assumption. cbn [rbind].
  pose proof (digits_value_nonneg ds) as Hn.
  assert (Hb : (digits_value ds / 1440 <= 999999999)%Z).
  { assert (0 <= timestamp now)%Z
      by (unfold timestamp, valid in *; lia).
    apply Z.lt_le_incl, Z.div_lt_upper_bound; unfold MAXORDINAL in B; lia. }
  destruct (DatetimeFacts.timedelta_minutes_ok _ Hn Hb) as (d & Ed).
  rewrite Ed. cbn [rbind].
  destruct (DatetimeFacts.timedelta_minutes_spec _ _ Hn Ed) as [Fd Sd].
  destruct (DatetimeFacts.add_ok now d Vn Fd) as (t & Et);
    [rewrite Sd; exact B|].
  rewrite Et. cbn [rbind]. exists t. split; [reflexivity|].
  destruct (DatetimeFacts.add_spec now d t Vn Fd Et) as [Vt Tt].
  split; [exact Vt | rewrite Tt, Sd; reflexivity].
Qed.

(** C1. A command [/remindme "X" at H:MM] -- keywords in any letter case,
    [X] without a double quote or a line feed, [H] in one or two digits at
    most 23, [MM] in two digits at most 59 -- parses to today at H:MM:00
    when that instant is at or after [now], and to the same time one day
    later when it is strictly before [now] (and today is not the last
    representable date). *)
Theorem at_time_is_today_or_tomorrow K1 X K2 hs ms now :
  valid now ->
  ci_match (str "/remindme") K1 = true -> plain X = true ->
  ci_match (str "at") K2 = true ->
  is_digits hs = true -> 1 <= length hs <= 2 ->
  is_digits ms = true -> length ms = 2 ->
  (digits_value hs <= 23)%Z -> (digits_value ms <= 59)%Z ->
  let today := mkdt (ordinal now) (digits_value hs) (digits_value ms) 0 0 in
  let tomorrow :=
    mkdt (ordinal now + 1) (digits_value hs) (digits_value ms) 0 0 in
  ((timestamp now <= timestamp today)%Z ->
   parse_reminder_text D now (command_at K1 X K2 hs ms)
   = Ok (Some (X, today))) /\
  ((timestamp today < timestamp now)%Z -> (ordinal now < MAXORDINAL)%Z ->
   parse_reminder_text D now (command_at K1 X K2 hs ms)
   = Ok (Some (X, tomorrow))).
Proof.
  intros Vn HK1 HX HK2 Hhs Lhs Hms Lms Bh Bm today tomorrow.
  pose proof (digits_value_nonneg hs) as Nh.
  pose proof (digits_value_nonneg ms) as Nm.
  assert (Vt : valid today) by (unfold valid, today in *; simpl; lia).
  assert (P : parse_reminder_text D now (command_at K1 X K2 hs ms) =
              if lt today now
              then (let? t := add today (timedelta_days 1) in Ok (Some (X, t)))
              else Ok (Some (X, today))).
  { unfold parse_reminder_text.
    rewrite search_A_command_at, search_B_command_at by assumption.
    cbn [group pred nth].
    rewrite !int_digits_text_ok; try assumption;
      try (unfold int_max_str_digits; lia);
      try (intros ->; simpl in *; lia).
    cbn [rbind]. rewrite DatetimeFacts.replace_ok by lia. cbn [rbind].
    fold today. destruct (lt today now); reflexivity. }
  rewrite P. split.
  - intros H. destruct (lt today now) eqn:L; [|reflexivity].
    apply DatetimeFacts.lt_timestamp in L; auto. lia.
  - intros H Ho.
    apply DatetimeFacts.lt_timestamp in H; auto. rewrite H.
    unfold today. rewrite DatetimeFacts.add_one_day;
      [reflexivity | lia | lia | unfold valid in Vn; lia].
Qed.

(** Whatever is written in the hour and minute places is handed to
    [replace]: an hour above 23 or a minute above 59 raises. *)
Lemma out_of_range_at_raises K1 X K2 hs ms now :
  ci_match (str "/remindme") K1 = true -> plain X = true ->
  ci_match (str "at") K2 = true ->
  is_digits hs = true -> 1 <= length hs <= 2 ->
  is_digits ms = true -> length ms = 2 ->
  (23 < digits_value hs \/ 59 < digits_value ms)%Z ->
  parse_reminder_text D now (command_at K1 X K2 hs ms) = Raise ValueError.
Proof.
  intros HK1 HX HK2 Hhs Lhs Hms Lms Hr.
  unfold parse_reminder_text.
  rewrite search_A_command_at, search_B_command_at by assumption.
  cbn [group pred nth].
  rewrite !int_digits_text_ok; try assumption;
    try (unfold int_max_str_digits; lia);
    try (intros ->; simpl in *; lia).
  cbn [rbind]. unfold replace.
  destruct ((0 <=? digits_value hs)%Z && (digits_value hs <=? 23)%Z) eqn:Eh;
    [|reflexivity].
  destruct ((0 <=? digits_value ms)%Z && (digits_value ms <=? 59)%Z) eqn:Em;
    [|reflexivity].
  exfalso. apply andb_true_iff in Eh as [_ Eh]. apply andb_true_iff in Em as [_ Em].
  apply Z.leb_le in Eh, Em. lia.
Qed.

End CommandTheorems.

(** ** Commands inside other text *)

Section EmbeddingFacts.

Variable D : char -> option N.

Lemma search_skips_prefix r p s :
  ~ In slash p ->
  search (Chr (literal_ignorecase slash) :: r) (p ++ s) =
  search (Chr (literal_ignorecase slash) :: r) s.
Proof.
  induction p as [|c p IH]; intros Hp; [reflexivity|].
  simpl app. cbn [search mtch].
  assert (E : literal_ignorecase slash c = false).
  { unfold literal_ignorecase. simpl. apply N.eqb_neq.
    intros ->. apply Hp. left. reflexivity. }
  rewrite E. apply IH. intros I. apply Hp. right. exact I.
Qed.

Lemma parse_skips_prefix now p s :
  ~ In slash p ->
  parse_reminder_text D now (p ++ s) = parse_reminder_text D now s.
Proof.
  intros Hp. unfold parse_reminder_text.
  change (pattern_A D)
    with (Chr (literal_ignorecase slash) :: tl (pattern_A D)).
  change (pattern_B D)
    with (Chr (literal_ignorecase slash) :: tl (pattern_B D)).
  rewrite !search_skips_prefix by assumption. reflexivity.
Qed.

(** C10. If the parser returns a reminder for [s], then for any text
    before and after it the parser does not answer "unrecognized": one of
    the patterns still occurs. When the text before [s] has no slash and
    nothing follows, the result is the one for [s]. *)
Theorem surrounding_text_keeps_a_command now s r p q :
  parse_reminder_text D now s = Ok (Some r) ->
  parse_reminder_text D now (p ++ s ++ q) <> Ok None /\
  (~ In slash p -> parse_reminder_text D now (p ++ s) = Ok (Some r)).
Proof.
  intros H. split.
  - intros U. apply parse_unrecognized in U as [UA UB].
    assert (N' : ~ (search (pattern_A D) s = None /\
                    search (pattern_B D) s = None)).
    { intros C. apply (parse_unrecognized D now) in C. congruence. }
    apply N'. split.
    + destruct (search (pattern_A D) s) eqn:E; [|reflexivity].
      exfalso. apply (ReFacts.search_embedded (pattern_A D) s p q);
        congruence.
    + destruct (search (pattern_B D) s) eqn:E; [|reflexivity].
      exfalso. apply (ReFacts.search_embedded (pattern_B D) s p q);
        congruence.
  - intros Hp. rewrite parse_skips_prefix; assumption.
Qed.

End EmbeddingFacts.

(** ** The claims at concrete inputs *)

Module Concrete.
Import Sample.

Lemma ascii_decimal_table : ascii_table ascii_decimal.
Proof. intros c _. reflexivity. Qed.

(** Against C1 as the specification words it (roll over also when the
    instant equals [now]): when the requested minute is exactly [now], the
    fire time is today's, that is [now] itself, not tomorrow's. *)
Lemma at_exactly_now_is_not_rolled :
  parse_reminder_text ascii_decimal now0 at_0905
  = Ok (Some (str "standup", mkdt 739000 9 5 0 0)) /\
  lt now0 (mkdt 739000 9 5 0 0) = false.
Proof. split; vm_compute; reflexivity. Qed.

(** Thirty seconds later the same command is for tomorrow. *)
Example at_0905_after_0905 :
  parse_reminder_text ascii_decimal late at_0905
  = Ok (Some (str "standup", mkdt 739001 9 5 0 0)).
Proof. vm_compute. reflexivity. Qed.

(** On the last representable day the roll-over raises. *)
Example at_0905_on_last_day :
  parse_reminder_text ascii_decimal last_day at_0905 = Raise OverflowError.
Proof. vm_compute. reflexivity. Qed.

(** C3. A time outside 0..23 / 0..59 still matches pattern B, and
    [replace] raises [ValueError] out of the parser, where the
    specification and the docstring promise a pair or "unrecognized". *)
Theorem out_of_range_time_raises :
  parse_reminder_text ascii_decimal now0 at_2500 = Raise ValueError /\
  parse_reminder_text ascii_decimal now0 at_0975 = Raise ValueError.
Proof. split; vm_compute; reflexivity. Qed.

(** Against C5 as the specification words it (every message string): a
    message that spans two lines makes the command unrecognised. *)
Lemma two_line_message_is_unrecognized :
  parse_reminder_text ascii_decimal now0 in_5_two_lines = Ok None.
Proof. vm_compute. reflexivity. Qed.

(** A message that contains a quoted [in N minutes] of its own is cut at
    that quote. *)
Example message_with_a_quote_is_cut :
  parse_reminder_text ascii_decimal now0 quoted_in_3
  = Ok (Some (str "a", mkdt 739000 9 8 0 0)).
Proof. vm_compute. reflexivity. Qed.

(** A number of minutes that leads past the last representable date
    raises. *)
Example in_many_minutes_raises :
  parse_reminder_text ascii_decimal now0 in_many_minutes
  = Raise OverflowError.
Proof. vm_compute. reflexivity. Qed.

(** Against C6 as the specification words it (strictly in the future):
    for [in 0 minutes] the fire time is [now] itself. *)
Lemma in_0_minutes_is_now :
  valid now0 /\
  parse_reminder_text ascii_decimal now0 in_0_minutes
  = Ok (Some (str "x", now0)) /\
  lt now0 now0 = false.
Proof.
  split; [unfold valid, now0, MAXORDINAL; simpl; lia|].
  split; vm_compute; reflexivity.
Qed.

(** Against C10 as the specification words it (same result under any
    prefix and suffix): when the text before the command opens a command of
    its own, the message returned is not the embedded one. *)
Lemma prefix_can_change_the_message :
  parse_reminder_text ascii_decimal now0 in_5_minutes
  = Ok (Some (str "x", mkdt 739000 9 10 0 0)) /\
  parse_reminder_text ascii_decimal now0 (dangling ++ in_5_minutes ++ [])
  = Ok (Some (dangling ++ str "x", mkdt 739000 9 10 0 0)).
Proof. split; vm_compute; reflexivity. Qed.

(** Text after an [at] command can turn it into an [in] command with
    another message. *)
Example suffix_can_change_the_command :
  parse_reminder_text ascii_decimal now0 at_0100
  = Ok (Some (str "x", mkdt 739001 1 0 0 0)) /\
  parse_reminder_text ascii_decimal now0 ([] ++ at_0100 ++ then_in_5)
  = Ok (Some (str "x" ++ quote :: str " at 1:00", mkdt 739000 9 10 0 0)).
Proof. split; vm_compute; reflexivity. Qed.

(** A transport failure is caught in the same way as a bad status. *)
Example transport_failure_is_caught :
  send_reminder_message uuid0 timed_out callback (str "ctx")
    (str "call mom") empty_world
  = (Ok tt,
     {| reminders := [];
        async_http_client := true;
        stdout := [Sending (str "ctx") (str "call mom");
                   SendException TransportError];
        posted := [push_request (uuid0 0) callback (str "ctx")
                     (str "call mom")];
        uuids := 1 |}).
Proof. vm_compute. reflexivity. Qed.

(** C2. With no [pushNotificationConfig] at all, a recognised command
    makes the endpoint raise on [None.url] before its check for a missing
    URL, so no explanatory reply is returned; the store is untouched. *)
Theorem missing_push_config_raises :
  a2a_endpoint ascii_decimal strftime0 now0
    (request_of in_10_minutes None) empty_world
  = (Raise AttributeError, empty_world).
Proof. vm_compute. reflexivity. Qed.

(** Scenario 1: the same request with a callback URL is stored. *)
Example scenario_call_mom :
  reminders
    (snd (a2a_endpoint ascii_decimal strftime0 now0
            (request_of in_10_minutes
               (Some {| url := callback; token := None |})) empty_world))
  = [(mkdt 739000 9 15 0 0, str "call mom", callback, str "ctx")].
Proof. vm_compute. reflexivity. Qed.

Lemma at_time_is_today_or_tomorrow_witness :
  ((timestamp late <= timestamp (mkdt 739000 9 5 0 0))%Z ->
   parse_reminder_text ascii_decimal late at_0905
   = Ok (Some (str "standup", mkdt 739000 9 5 0 0))) /\
  ((timestamp (mkdt 739000 9 5 0 0) < timestamp late)%Z ->
   (ordinal late < MAXORDINAL)%Z ->
   parse_reminder_text ascii_decimal late at_0905
   = Ok (Some (str "standup", mkdt 739001 9 5 0 0))).
Proof.
  apply (at_time_is_today_or_tomorrow ascii_decimal ascii_decimal_table
           cmd (str "standup") (str "at") [0%N; 9%N] [0%N; 5%N] late);
    try reflexivity; try (simpl; lia); try (vm_compute; discriminate).
  unfold valid, late, MAXORDINAL; simpl; lia.
Defined.

Lemma in_minutes_is_now_plus_minutes_witness :
  exists t,
    parse_reminder_text ascii_decimal now0 in_10_minutes
    = Ok (Some (str "call mom", t)) /\
    valid t /\
    (timestamp t = timestamp now0 + digits_value [1%N; 0%N] * 60000000)%Z.
Proof.
  apply (in_minutes_is_now_plus_minutes ascii_decimal ascii_decimal_table
           cmd (str "call mom") (str "in") [1%N; 0%N] (str "minutes") now0);
    try reflexivity; try discriminate.
  - unfold valid, now0, MAXORDINAL; simpl; lia.
  - unfold int_max_str_digits. simpl. lia.
Defined.

Lemma fire_time_is_later_unless_exactly_now_witness :
  valid (mkdt 739000 9 15 0 0) /\
  le now0 (mkdt 739000 9 15 0 0) = true /\
  (timestamp now0 <= timestamp (mkdt 739000 9 15 0 0))%Z /\
  (lt now0 (mkdt 739000 9 15 0 0) = true \/ mkdt 739000 9 15 0 0 = now0) /\
  (mkdt 739000 9 15 0 0 = now0 <->
   (exists out, search (pattern_A ascii_decimal) in_10_minutes = Some out /\
                int ascii_decimal (group out 2) = Ok 0) \/
   (search (pattern_A ascii_decimal) in_10_minutes = None /\
    exists out h m,
      search (pattern_B ascii_decimal) in_10_minutes = Some out /\
      int ascii_decimal (group out 2) = Ok h /\
      int ascii_decimal (group out 3) = Ok m /\
      now0 = mkdt (ordinal now0) h m 0 0)).
Proof.
  apply (fire_time_is_later_unless_exactly_now ascii_decimal now0
           in_10_minutes (str "call mom")).
  - unfold valid, now0, MAXORDINAL; simpl; lia.
  - vm_compute. reflexivity.
Defined.



Lemma unrecognized_gets_help_witness :
  a2a_endpoint ascii_decimal strftime0 now0
    (request_of hello_there None) empty_world
  = (Ok (reply_of (request_of hello_there None) help_reply), empty_world).
Proof.
  apply (unrecognized_gets_help ascii_decimal strftime0 now0
           (request_of hello_there None) empty_world hello_there);
    vm_compute; reflexivity.
Defined.

Lemma surrounding_text_keeps_a_command_witness :
  parse_reminder_text ascii_decimal now0
    (str "hey " ++ in_5_minutes ++ str " please") <> Ok None /\
  (~ In slash (str "hey ") ->
   parse_reminder_text ascii_decimal now0 (str "hey " ++ in_5_minutes)
   = Ok (Some (str "x", mkdt 739000 9 10 0 0))).
Proof.
  apply (surrounding_text_keeps_a_command ascii_decimal now0 in_5_minutes
           (str "x", mkdt 739000 9 10 0 0) (str "hey ") (str " please")).
  vm_compute. reflexivity.
Defined.

End Concrete.

(** * Further properties of the scheduler, the endpoint and the parser *)

(** ** Scans and deliveries *)

Section MoreSchedulerFacts.

Variable uuid4 : nat -> text.
Variable network : http_request -> http_outcome.

Local Abbreviation send := (send_reminder_message uuid4 network).
Local Abbreviation tick := (check_reminders uuid4 network).
Local Abbreviation run := (run_scheduler uuid4 network).

(** Everything a scan does when the client is there. *)
Lemma tick_effects now w :
  async_http_client w = true ->
  exists w',
    tick now w = (Ok tt, w') /\
    reminders w' = kept_reminders now (reminders w) /\
    async_http_client w' = true /\
    posted w' = posted w ++
                push_requests uuid4 (uuids w)
                  (due_reminders now (reminders w)) /\
    uuids w' = (uuids w + length (due_reminders now (reminders w)))%nat.
Proof.
  intros Hc. rewrite tick_unfold. cbv zeta.
  destruct (due_reminders now (reminders w)) as [|r due] eqn:E.
  - eexists. split; [reflexivity|]. simpl.
    rewrite app_nil_r. repeat split; auto.
  - match goal with |- context [gather _ ?w1] => set (w1' := w1) end.
    destruct (gather_frame uuid4 network (r :: due) w1') as (w2 & G & R & C).
    destruct (gather_posts uuid4 network (r :: due) w1' Hc) as [P U].
    rewrite G in P, U. simpl snd in P, U.
    exists w2. split; [exact G|].
    split; [rewrite R; reflexivity|].
    split; [rewrite C; exact Hc|].
    split; [rewrite P; reflexivity|].
    rewrite U. reflexivity.
Qed.

Lemma blank_push_requests n rs :
  map blank_id (push_requests uuid4 n rs) = map delivery_of rs.
Proof.
  revert n. induction rs as [|[[[t m] u] c] rs IH]; intros n; simpl.
  - reflexivity.
  - rewrite IH. reflexivity.
Qed.

Lemma request_ids_of_batch n rs :
  map request_id (push_requests uuid4 n rs) = map uuid4 (seq n (length rs)).
Proof.
  revert n. induction rs as [|[[[t m] u] c] rs IH]; intros n; simpl.
  - reflexivity.
  - rewrite IH. reflexivity.
Qed.

Lemma NoDup_map_injective {A B} (f : A -> B) l :
  (forall a b, f a = f b -> a = b) -> NoDup l -> NoDup (map f l).
Proof.
  intros Inj H. induction H as [|x l Hx H IH]; simpl; constructor; auto.
  intros I. apply in_map_iff in I as (y & E & I).
  apply Inj in E. subst y. contradiction.
Qed.


(** X10. Without a client a scan still takes the due reminders out of the
    store, but posts nothing and draws no id: it prints the count and one
    "not initialized" line per due reminder, and those reminders are
    gone. *)
Theorem scan_without_client_drops_due_reminders now w :
  async_http_client w = false ->
  let due := due_reminders now (reminders w) in
  exists w',
    tick now w = (Ok tt, w') /\
    reminders w' = kept_reminders now (reminders w) /\
    posted w' = posted w /\
    uuids w' = uuids w /\
    stdout w' = stdout w ++
                match due with
                | [] => []
                | _ :: _ => FoundDue (length due)
                            :: repeat ClientNotInitialized (length due)
                end.
Proof.
  intros Hc due. rewrite tick_unfold. cbv zeta. fold due.
  assert (G : forall l w0, async_http_client w0 = false ->
            gather (tasks_of uuid4 network l) w0 =
            (Ok tt, {| reminders := reminders w0;
                       async_http_client := false;
                       stdout := stdout w0 ++
                                 repeat ClientNotInitialized (length l);
                       posted := posted w0; uuids := uuids w0 |})).
  { induction l as [|[[[t m] u] c] l IH]; intros w0 H0.
    - simpl. rewrite app_nil_r. destruct w0; simpl in *; subst; reflexivity.
    - simpl. unfold bind. rewrite send_without_client by assumption.
      rewrite IH by reflexivity. simpl. rewrite <- app_assoc. reflexivity. }
  destruct due as [|r l] eqn:E.
  - eexists. split; [reflexivity|]. simpl. rewrite app_nil_r. auto.
  - rewrite G by (simpl; exact Hc). eexists. split; [reflexivity|].
    simpl. rewrite <- app_assoc. auto.
Qed.



Lemma lex_le_lt_trans a : forall b c,
  lex_compare a b <> Gt -> lex_compare b c = Lt -> lex_compare a c = Lt.
Proof.
  induction a as [|x a IH]; intros [|y b] [|z c] H1 H2; simpl in *;
    try congruence.
  destruct (Z.compare_spec x y), (Z.compare_spec y z),
    (Z.compare_spec x z); try congruence; try lia; eauto.
Qed.

Lemma le_lt_trans a b c : le a b = true -> lt b c = true -> lt a c = true.
Proof.
  unfold le, lt, compare. intros H1 H2.
  rewrite (lex_le_lt_trans (fields a) (fields b) (fields c)); auto.
  - destruct (lex_compare (fields a) (fields b)); congruence.
  - destruct (lex_compare (fields b) (fields c)); congruence.
Qed.

Lemma kept_kept now1 now2 rs :
  le now1 now2 = true ->
  kept_reminders now2 (kept_reminders now1 rs) = kept_reminders now2 rs.
Proof.
  intros L. unfold kept_reminders.
  induction rs as [|r rs IH]; simpl; auto.
  destruct (gt (fire_at r) now2) eqn:G2.
  - assert (G1 : gt (fire_at r) now1 = true)
      by (unfold gt in *; eapply le_lt_trans; eauto).
    rewrite G1. simpl. rewrite G2, IH. reflexivity.
  - destruct (gt (fire_at r) now1); simpl; [rewrite G2|]; exact IH.
Qed.

(** X12. A later scan subsumes an earlier one: after a scan at [now1] and
    a scan at [now2], with [now1 <= now2], the store holds exactly the
    reminders of the original store that are later than [now2], the same as
    after a single scan at [now2]. *)
Theorem later_scan_subsumes_earlier now1 now2 w :
  le now1 now2 = true ->
  reminders (snd (tick now2 (snd (tick now1 w)))) =
  kept_reminders now2 (reminders w) /\
  reminders (snd (tick now2 (snd (tick now1 w)))) =
  reminders (snd (tick now2 w)).
Proof.
  intros L.
  destruct (tick_store uuid4 network now1 w) as (w1 & -> & R1).
  cbn [snd].
  destruct (tick_store uuid4 network now2 w1) as (w2 & -> & R2).
  destruct (tick_store uuid4 network now2 w) as (w3 & -> & R3).
  cbn [snd]. rewrite R2, R1, R3, kept_kept by assumption. auto.
Qed.

Lemma filter_filter {A} (f g : A -> bool) l :
  filter g (filter f l) = filter (fun x => f x && g x) l.
Proof.
  induction l as [|x l IH]; simpl; auto.
  destruct (f x); simpl; [destruct (g x)|]; rewrite IH; reflexivity.
Qed.

Lemma filter_all {A} (l : list A) : filter (fun _ => true) l = l.
Proof. induction l; simpl; congruence. Qed.

Lemma filter_none {A} (l : list A) : filter (fun _ => false) l = [].
Proof. induction l; simpl; congruence. Qed.

Lemma due_at_some_cons now later r :
  due_at_some (now :: later) r = le (fire_at r) now || due_at_some later r.
Proof. reflexivity. Qed.

Lemma kept_after_first now later rs :
  filter (fun r => negb (due_at_some later r)) (kept_reminders now rs) =
  filter (fun r => negb (due_at_some (now :: later) r)) rs.
Proof.
  unfold kept_reminders. rewrite filter_filter. apply filter_ext.
  intros r. rewrite due_at_some_cons, DatetimeFacts.le_gt.
  destruct (gt (fire_at r) now); reflexivity.
Qed.

Lemma due_after_first now later rs :
  Permutation
    (due_reminders now rs ++
     filter (due_at_some later) (kept_reminders now rs))
    (filter (due_at_some (now :: later)) rs).
Proof.
  unfold due_reminders, kept_reminders.
  induction rs as [|r rs IH]; cbn [filter app]; auto.
  rewrite due_at_some_cons, DatetimeFacts.le_gt.
  destruct (gt (fire_at r) now); cbn [negb orb filter app].
  - destruct (due_at_some later r); [|exact IH].
    apply Permutation_sym, Permutation_cons_app, Permutation_sym, IH.
  - constructor. exact IH.
Qed.


End MoreSchedulerFacts.

(** ** The endpoint *)

Section MoreEndpointFacts.

Variable D : char -> option N.
Variable strftime : datetime -> text.
Variable uuid4 : nat -> text.
Variable network : http_request -> http_outcome.

Local Abbreviation parse := (parse_reminder_text D).
Local Abbreviation endpoint := (a2a_endpoint D strftime).
Local Abbreviation tick := (check_reminders uuid4 network).

Lemma int_digits_raises s : forall acc e,
  int_digits D acc s = Raise e -> e = ValueError.
Proof.
  induction s as [|c s IH]; intros acc e H; cbn [int_digits] in H.
  - discriminate.
  - destruct (D c); [eauto | congruence].
Qed.

Lemma int_raises s e : int D s = Raise e -> e = ValueError.
Proof.
  unfold int. destruct s as [|c s]; [congruence|].
  destruct (Nat.ltb _ _); [congruence | apply int_digits_raises].
Qed.

Lemma add_raises t d e : add t d = Raise e -> e = OverflowError.
Proof.
  unfold add. destruct (_ && _); [discriminate | congruence].
Qed.

Lemma replace_raises t h m e : replace t h m 0 0 = Raise e -> e = ValueError.
Proof.
  unfold replace.
  repeat match goal with
         | |- (if ?x then _ else _) = _ -> _ => destruct x
         end; congruence.
Qed.

Lemma parse_raises now t e :
  parse now t = Raise e -> e = ValueError \/ e = OverflowError.
Proof.
  unfold parse_reminder_text, rbind. intros H.
  destruct (search (pattern_A D) t) as [m|].
  - destruct (int D (group m 2)) as [n|e1] eqn:E1.
    + destruct (timedelta_minutes n) as [d|e2] eqn:E2.
      * destruct (add now d) as [t'|e3] eqn:E3; [discriminate|].
        injection H as <-. right. eapply add_raises; eauto.
      * injection H as <-. right. unfold timedelta_minutes in E2.
        destruct (_ <? _); congruence.
    + injection H as <-. left. eapply int_raises; eauto.
  - destruct (search (pattern_B D) t) as [m|]; [|discriminate].
    destruct (int D (group m 2)) as [h|e1] eqn:E1.
    + destruct (int D (group m 3)) as [mi|e2] eqn:E2.
      * destruct (replace now h mi 0 0) as [t0|e3] eqn:E3.
        -- destruct (lt t0 now); [|discriminate].
           destruct (add t0 (timedelta_days 1)) as [t'|e4] eqn:E4;
             [discriminate|].
           injection H as <-. right. eapply add_raises; eauto.
        -- injection H as <-. left. eapply replace_raises; eauto.
      * injection H as <-. left. eapply int_raises; eauto.
    + injection H as <-. left. eapply int_raises; eauto.
Qed.

Lemma first_text_raises ps e : first_text ps = Raise e -> e = AttributeError.
Proof.
  induction ps as [|p ps IH]; simpl; [discriminate|].
  destruct (kind p); auto. destruct (part_text p); congruence.
Qed.

(** The endpoint, branch by branch. *)
Lemma endpoint_cases now request w :
  let ps := parts (message (params request)) in
  let cfg := pushNotificationConfig (configuration (params request)) in
  let ctx := contextId (params request) in
  (exists e, endpoint now request w = (Raise e, w) /\
             (e = AttributeError \/ e = ValueError \/ e = OverflowError)) \/
  endpoint now request w = (Ok (reply_of request help_reply), w) \/
  endpoint now request w =
    (Ok (reply_of request missing_url_reply),
     {| reminders := reminders w;
        async_http_client := async_http_client w;
        stdout := stdout w ++ [NoPushUrl];
        posted := posted w; uuids := uuids w |}) \/
  (exists t m rt c,
     first_text ps = Ok t /\ parse now t = Ok (Some (m, rt)) /\
     cfg = Some c /\ url c <> [] /\
     endpoint now request w =
       (Ok (reply_of request (confirmation_reply m (strftime rt))),
        {| reminders := reminders w ++ [(rt, m, url c, ctx)];
           async_http_client := async_http_client w;
           stdout := stdout w ++
                     [ReminderSet ctx rt (S (length (reminders w)))];
           posted := posted w; uuids := uuids w |})).
Proof.
  intros ps cfg ctx. unfold a2a_endpoint, bind, lift, ret.
  fold ps cfg ctx.
  destruct (first_text ps) as [t|e] eqn:Ht.
  2:{ left. exists e. split; [reflexivity|].
      left. eapply first_text_raises; eauto. }
  destruct (parse now t) as [[[m rt]|]|e] eqn:Hp.
  - destruct cfg as [c|] eqn:Hc.
    + destruct (url c) as [|u0 u] eqn:Hu.
      * right. right. left. reflexivity.
      * right. right. right. exists t, m, rt, c.
        rewrite Hu. repeat split; auto; try discriminate.
        unfold append_reminder, bind, get_reminders, set_reminders, print.
        cbn. rewrite length_app. cbn.
        replace (length (reminders w) + 1)%nat
          with (S (length (reminders w))) by lia.
        reflexivity.
    + left. exists AttributeError. split; [reflexivity | auto].
  - right. left. reflexivity.
  - left. exists e. split; [reflexivity|].
    right. eapply parse_raises; eauto.
Qed.


(** X2. Whenever the endpoint answers, the answer echoes the request id and
    the context id, is marked completed, and carries one agent text part
    with the help text, the missing-URL text or a confirmation. *)
Theorem every_reply_echoes_the_request now request w resp w' :
  endpoint now request w = (Ok resp, w') ->
  exists reply_text,
    resp = reply_of request reply_text /\
    (reply_text = help_reply \/ reply_text = missing_url_reply \/
     exists m rt, reply_text = confirmation_reply m (strftime rt)).
Proof.
  intros H.
  destruct (endpoint_cases now request w)
    as [(e & E & _) | [E | [E | (t & m & rt & c & _ & _ & _ & _ & E)]]];
    rewrite E in H; [discriminate | | |]; injection H as <- _; eauto 10.
Qed.


(** X4. The endpoint only ever appends to the store, at most one reminder
    per request and never one without a callback URL; it posts nothing,
    draws no id and leaves the client alone. *)
Theorem endpoint_only_appends now request w :
  let w' := snd (endpoint now request w) in
  (exists new, reminders w' = reminders w ++ new /\
               (length new <= 1)%nat /\
               forallb has_callback new = true) /\
  posted w' = posted w /\ uuids w' = uuids w /\
  async_http_client w' = async_http_client w.
Proof.
  destruct (endpoint_cases now request w)
    as [(e & E & _) | [E | [E | (t & m & rt & c & _ & _ & _ & Hu & E)]]];
    cbv zeta; rewrite E; cbn [snd reminders posted uuids async_http_client].
  - split; auto. exists []. rewrite app_nil_r. auto.
  - split; auto. exists []. rewrite app_nil_r. auto.
  - split; auto. exists []. rewrite app_nil_r. auto.
  - split; auto. eexists. split; [reflexivity|]. split; [simpl; lia|].
    unfold has_callback. simpl. destruct (url c); [congruence | reflexivity].
Qed.

Lemma first_text_skips skipped : forall p rest,
  forallb (fun q => negb (is_text_part q)) skipped = true ->
  is_text_part p = true ->
  first_text (skipped ++ p :: rest) = first_text [p].
Proof.
  unfold is_text_part.
  induction skipped as [|q skipped IH]; intros p rest Hs Hp; simpl in *.
  - destruct (kind p); try discriminate. reflexivity.
  - apply andb_true_iff in Hs as [Hq Hs].
    destruct (kind q); try discriminate; apply IH; auto.
Qed.

Lemma endpoint_reads_first_text now request1 request2 w :
  id request1 = id request2 ->
  contextId (params request1) = contextId (params request2) ->
  configuration (params request1) = configuration (params request2) ->
  first_text (parts (message (params request1))) =
  first_text (parts (message (params request2))) ->
  endpoint now request1 w = endpoint now request2 w.
Proof.
  intros Hi Hc Hf Ht. unfold a2a_endpoint. rewrite Hi, Hc, Hf, Ht.
  reflexivity.
Qed.

(** X5. Only the first text part of a message counts: parts of another kind
    before it are skipped, whatever follows it is ignored. *)
Theorem only_the_first_text_part_counts now request skipped p rest w :
  forallb (fun q => negb (is_text_part q)) skipped = true ->
  is_text_part p = true ->
  endpoint now (with_parts request (skipped ++ p :: rest)) w =
  endpoint now (with_parts request [p]) w.
Proof.
  intros Hs Hp. apply endpoint_reads_first_text; try reflexivity.
  cbn [with_parts params message parts]. apply first_text_skips; assumption.
Qed.

Lemma lstrip_blank s :
  forallb Py_UNICODE_ISSPACE s = true -> lstrip s = [].
Proof.
  induction s as [|c s IH]; simpl; auto.
  intros H. apply andb_true_iff in H as [Hc H]. rewrite Hc. auto.
Qed.

Lemma parse_empty now : parse now [] = Ok None.
Proof. reflexivity. Qed.

(** X6. A message without any text part, or whose first text part is blank,
    is answered with the usage help and changes nothing. *)
Theorem blank_message_gets_help now request ps w :
  (forallb (fun q => negb (is_text_part q)) ps = true \/
   exists skipped t rest,
     ps = skipped ++ {| kind := kind_text; part_text := Some t |} :: rest /\
     forallb (fun q => negb (is_text_part q)) skipped = true /\
     forallb Py_UNICODE_ISSPACE t = true) ->
  endpoint now (with_parts request ps) w =
  (Ok (reply_of request help_reply), w).
Proof.
  intros H.
  assert (F : first_text ps = Ok []).
  { destruct H as [H | (skipped & t & rest & -> & Hs & Ht)].
    - clear -H. induction ps as [|q ps IH]; simpl in *; auto.
      apply andb_true_iff in H as [Hq H]. unfold is_text_part in Hq.
      destruct (kind q); try discriminate; auto.
    - rewrite first_text_skips by (auto; reflexivity).
      simpl. unfold strip. rewrite (lstrip_blank t Ht). reflexivity. }
  unfold a2a_endpoint, bind, lift, ret.
  cbn [with_parts params message parts]. rewrite F, parse_empty.
  reflexivity.
Qed.

Lemma in_push_requests n rs t m u c :
  In (t, m, u, c) rs ->
  exists k, (n <= k)%nat /\
            In (push_request (uuid4 k) u c m) (push_requests uuid4 n rs).
Proof.
  revert n. induction rs as [|[[[t' m'] u'] c'] rs IH]; intros n I.
  - contradiction.
  - destruct I as [E | I].
    + injection E as -> -> -> ->. exists n. split; [lia | left; reflexivity].
    + destruct (IH (S n) I) as (k & Hk & Hin).
      exists k. split; [lia | right; exact Hin].
Qed.


(** X8. No reminder without a callback URL is ever in the store: the
    endpoint and the scan keep that invariant. *)
Theorem stored_reminders_have_a_callback now request w :
  forallb has_callback (reminders w) = true ->
  forallb has_callback (reminders (snd (endpoint now request w))) = true /\
  forallb has_callback (reminders (snd (tick now w))) = true.
Proof.
  intros H. split.
  - destruct (endpoint_cases now request w)
      as [(e & E & _) | [E | [E | (t & m & rt & c & _ & _ & _ & Hu & E)]]];
      rewrite E; cbn [snd reminders]; auto.
    rewrite forallb_app, H. unfold has_callback. simpl.
    destruct (url c); [congruence | reflexivity].
  - destruct (tick_store uuid4 network now w) as (w' & T & R).
    rewrite T. cbn [snd]. rewrite R. apply forallb_forall. intros r I.
    apply filter_In in I as [I _].
    rewrite forallb_forall in H. auto.
Qed.

End MoreEndpointFacts.

(** ** What the parser returns *)

Section MoreParserFacts.

Variable D : char -> option N.

Local Abbreviation parse := (parse_reminder_text D).

(** What the shared head of the patterns reads: the message between two
    double quotes, without a line feed in it. *)
Lemma head_shape R m out :
  matches (command_head ++ R) m out ->
  exists a M b out',
    m = a ++ quote :: M ++ quote :: b /\ out = M :: out' /\
    forallb any_but_newline M = true.
Proof.
  intros Hm.
  apply matches_app in Hm as (m1 & m2 & c1 & c2 & -> & -> & Hh & HR).
  unfold command_head, lits in Hh.
  apply matches_app in Hh as (k & mh & ck & ch' & -> & -> & Hk & Hh).
  apply matches_lits in Hk as [Hk ->].
  simpl in Hh.
  destruct Hh as (u1 & ? & -> & Fu1 & L1 & _ & q1 & ? & -> & Pq1 &
                  M & ? & caps' & -> & -> & FM & _ & _ &
                  q2 & ? & -> & Pq2 & u2 & ? & -> & Fu2 & L2 & _ & -> & ->).
  apply exact_literal in Pq1; [|reflexivity].
  apply exact_literal in Pq2; [|reflexivity]. subst q1 q2.
  exists (k ++ u1), M, (u2 ++ m2), c2.
  split; [|split; [reflexivity | exact FM]].
  repeat (rewrite <- ?app_assoc; simpl). reflexivity.
Qed.

(** A successful parse comes from an occurrence of one of the patterns. *)
Lemma parse_success now txt msg t :
  parse now txt = Ok (Some (msg, t)) ->
  exists R pre m rest out,
    txt = pre ++ m ++ rest /\ matches (command_head ++ R) m out /\
    msg = group out 1.
Proof.
  unfold parse_reminder_text, rbind. intros H.
  destruct (search (pattern_A D) txt) as [out|] eqn:SA.
  - apply ReFacts.search_sound in SA as (pre & m & rest & E & Hm).
    exists (tail_A D), pre, m, rest, out. repeat split; auto.
    destruct (int D (group out 2)); [|discriminate].
    destruct (timedelta_minutes a); [|discriminate].
    destruct (add now a0); [|discriminate]. congruence.
  - destruct (search (pattern_B D) txt) as [out|] eqn:SB; [|discriminate].
    apply ReFacts.search_sound in SB as (pre & m & rest & E & Hm).
    exists (tail_B D), pre, m, rest, out. repeat split; auto.
    destruct (int D (group out 2)); [|discriminate].
    destruct (int D (group out 3)); [|discriminate].
    destruct (replace now a a0 0 0); [|discriminate].
    destruct (lt a1 now); [|congruence].
    destruct (add a1 (timedelta_days 1)); [|discriminate]. congruence.
Qed.

(** X14. The message of a parsed reminder stands in the text as it is,
    between two double quotes, and contains no line feed. *)
Theorem parsed_message_is_quoted_in_the_text now txt msg t :
  parse now txt = Ok (Some (msg, t)) ->
  (exists before after, txt = before ++ quote :: msg ++ quote :: after) /\
  ~ In newline msg.
Proof.
  intros H.
  apply parse_success in H as (R & pre & m & rest & out & -> & Hm & ->).
  apply head_shape in Hm as (a & M & b & out' & -> & -> & FM).
  cbn [group pred nth]. split.
  - exists (pre ++ a), (b ++ rest).
    repeat (rewrite <- ?app_assoc; simpl). reflexivity.
  - intros I. rewrite forallb_forall in FM. apply FM in I.
    unfold any_but_newline, newline in I. simpl in I. discriminate.
Qed.

(** X15. An [in N minutes] reminder keeps the seconds and microseconds of
    [now] and lies a whole number of minutes after it. *)
Theorem in_minutes_keeps_the_seconds now txt out msg t :
  valid now ->
  search (pattern_A D) txt = Some out ->
  parse now txt = Ok (Some (msg, t)) ->
  second t = second now /\ microsecond t = microsecond now /\
  exists n, 0 <= n /\ int D (group out 2) = Ok n /\
            timestamp t = timestamp now + n * 60000000.
Proof.
  intros Vn SA H. unfold parse_reminder_text, rbind in H. rewrite SA in H.
  destruct (int D (group out 2)) as [n|] eqn:En; [|discriminate].
  destruct (timedelta_minutes n) as [d|] eqn:Ed; [|discriminate].
  destruct (add now d) as [t'|] eqn:Et; [|discriminate].
  injection H as _ <-.
  pose proof (int_nonneg D _ _ En) as Hn.
  apply DatetimeFacts.timedelta_minutes_spec in Ed as [Fd Sd]; auto.
  apply DatetimeFacts.add_spec in Et as [Vt Tt]; auto.
  rewrite Sd in Tt.
  assert (G : second t' = second now /\ microsecond t' = microsecond now).
  { clear -Vn Vt Tt. destruct now as [o h m s u], t' as [o' h' m' s' u'].
    unfold valid, timestamp in *; simpl in *. lia. }
  destruct G. repeat split; auto. exists n. auto.
Qed.

(** X16. An [at H:MM] reminder is on the full minute and lies less than one
    day after [now]. *)
Theorem at_time_is_within_a_day now txt msg t :
  valid now ->
  search (pattern_A D) txt = None ->
  parse now txt = Ok (Some (msg, t)) ->
  second t = 0 /\ microsecond t = 0 /\
  timestamp now <= timestamp t < timestamp now + 86400000000.
Proof.
  intros Vn SA H. unfold parse_reminder_text, rbind in H. rewrite SA in H.
  destruct (search (pattern_B D) txt) as [out|]; [|discriminate].
  destruct (int D (group out 2)) as [h|]; [|discriminate].
  destruct (int D (group out 3)) as [mi|]; [|discriminate].
  destruct (replace now h mi 0 0) as [t0|] eqn:Er; [|discriminate].
  apply DatetimeFacts.replace_spec in Er as (Hh & Hm & ->).
  assert (V0 : valid (mkdt (ordinal now) h mi 0 0))
    by (unfold valid in *; simpl; lia).
  destruct (lt _ now) eqn:L.
  - destruct (add _ (timedelta_days 1)) as [t'|] eqn:Et; [|discriminate].
    injection H as _ <-.
    apply DatetimeFacts.lt_timestamp in L; auto.
    assert (Ho : 0 < ordinal now + 1 <= MAXORDINAL).
    { unfold add in Et. simpl in Et.
      destruct ((0 <? _) && (_ <=? MAXORDINAL)) eqn:E; [|discriminate].
      clear Et. apply andb_true_iff in E as [E1 E2].
      apply Z.ltb_lt in E1. apply Z.leb_le in E2.
      replace (0 + 0) with 0 in * by lia.
      change (0 / 1000000) with 0 in *.
      assert (Hd : (h * 3600 + mi * 60 + 0 + 0 + 0) / 86400 = 0)
        by (apply Z.div_small; lia).
      rewrite Hd in *. lia. }
    rewrite DatetimeFacts.add_one_day in Et by lia.
    injection Et as <-. simpl.
    unfold timestamp in *; simpl in *. unfold valid in Vn. lia.
  - injection H as _ <-. simpl.
    assert (timestamp now <= timestamp (mkdt (ordinal now) h mi 0 0)).
    { destruct (Z.lt_ge_cases (timestamp (mkdt (ordinal now) h mi 0 0))
                  (timestamp now)) as [C|C]; [|lia].
      apply DatetimeFacts.lt_timestamp in C; auto. congruence. }
    unfold timestamp in *; simpl in *. unfold valid in Vn. lia.
Qed.

End MoreParserFacts.

(** ** Commands with malformed or trailing text *)

Section MoreCommandFacts.
Local Open Scope nat_scope.

Variable D : char -> option N.
Hypothesis D_ascii : ascii_table D.

Lemma tail_B_needs_its_digits K2 hs ms m' rest out' :
  ci_match (str "at") K2 = true ->
  is_digits hs = true -> hs <> [] ->
  K2 ++ space :: digits_text hs ++ colon :: digits_text ms = m' ++ rest ->
  matches (tail_B D) m' out' -> length hs <= 2 /\ 2 <= length ms.
Proof.
  intros HK2 Hhs Hne E Hm. unfold tail_B, lits in Hm.
  apply matches_app in Hm as (k & m1 & ck & c1 & -> & -> & Hk & Hi).
  apply matches_lits in Hk as [Hk ->].
  simpl in Hi.
  destruct Hi as (u3 & ? & -> & Fu3 & L3 & _ & Dg1 & ? & caps & -> & -> &
                  F1 & L1 & U1 & c' & ? & -> & Pc & Dg2 & ? & caps2 & -> & -> &
                  F2 & L2 & U2 & -> & ->).
  apply exact_literal in Pc; [|reflexivity]. subst c'.
  repeat rewrite <- app_assoc in E.
  apply same_length_app in E as [_ E].
  2:{ apply ci_match_length in HK2, Hk. congruence. }
  pose proof (digit_chars D D_ascii hs Hhs) as Fhs.
  symmetry in E. cbn [app] in E.
  destruct (one_blank u3 _ _ Fu3 L3 (digits_head D D_ascii hs _ Hhs Hne) E)
    as [-> E1].
  destruct (run_bounded (is_decimal D) Dg1 _ _ _ _ F1 E1
              (colon_not_decimal D D_ascii)) as (w & Ew & E2).
  clear E E1. rename E2 into E.
  destruct w as [|x w].
  - rewrite app_nil_r in Ew. subst Dg1.
    simpl in E. injection E as E.
    apply (f_equal (@length char)) in E.
    rewrite !length_app in E. simpl in E, U1.
    unfold digits_text in *. rewrite length_map in *. lia.
  - exfalso. simpl in E. injection E as <- _.
    assert (I : In colon (digits_text hs))
      by (rewrite Ew; apply in_or_app; right; left; reflexivity).
    rewrite Forall_forall in Fhs. apply Fhs in I. tauto.
Qed.

(** X17. An hour of more than two digits or a minute of fewer than two is
    not an [at] command: the text is unrecognised. *)
Theorem malformed_time_is_unrecognized K1 X K2 hs ms now :
  ci_match (str "/remindme") K1 = true -> plain X = true ->
  ci_match (str "at") K2 = true ->
  is_digits hs = true -> hs <> [] -> is_digits ms = true ->
  2 < length hs \/ length ms < 2 ->
  parse_reminder_text D now (command_at K1 X K2 hs ms) = Ok None.
Proof.
  intros HK1 HX HK2 Hhs Hne Hms Hbad.
  unfold parse_reminder_text.
  rewrite (search_A_command_at D D_ascii) by assumption.
  assert (SB : search (pattern_B D) (command_at K1 X K2 hs ms) = None).
  { rewrite pattern_B_split. unfold command_at.
    apply search_command_none; auto.
    - rewrite cnt_app, cnt_space_cons, cnt_app, cnt_colon_cons.
      rewrite (keyword_no_quote (str "at") K2),
        !(digits_no_quote D D_ascii); auto.
    - apply (keyword_head (str "at"));
        [vm_compute; discriminate | reflexivity | assumption].
    - intros m' rest out' E Hm.
      destruct (tail_B_needs_its_digits K2 hs ms m' rest out'); auto. lia. }
  rewrite SB. reflexivity.
Qed.


(** The search over a well-formed command that is followed by more text. *)
Lemma search_command_suffix R T q X K1 caps :
  ci_match (str "/remindme") K1 = true -> plain X = true ->
  cnt (T ++ q) = 0 ->
  (exists c T', T ++ q = c :: T' /\ Py_UNICODE_ISSPACE c = false) ->
  matches R T caps ->
  (forall m' rest out',
     T ++ q = m' ++ rest -> matches R m' out' -> out' = caps) ->
  search (command_head ++ R)
         (K1 ++ space :: quote :: X ++ quote :: space :: T ++ q)
  = Some (X :: caps).
Proof.
  intros HK1 HX HT Hh HR Huniq.
  destruct (search _ _) as [out|] eqn:S.
  - apply ReFacts.search_sound in S as (pre & m & rest & E & Hm).
    eapply head_unique in Hm as (m' & out' & -> & Hm' & ET); eauto.
    + f_equal. f_equal. eapply Huniq; eauto.
    + apply plain_spec in HX. tauto.
    + apply cnt_zero. exact HT.
  - exfalso. revert S.
    replace (K1 ++ space :: quote :: X ++ quote :: space :: T ++ q)
      with ([] ++ ((K1 ++ space :: quote :: X ++ [quote; space]) ++ T) ++ q)
      by (simpl; rewrite <- !app_assoc; simpl;
          rewrite <- app_assoc; reflexivity).
    apply (ReFacts.search_complete _ _ (X :: caps)).
    apply matches_app.
    exists (K1 ++ space :: quote :: X ++ [quote; space]), T, [X], caps.
    repeat split; auto using matches_head.
Qed.

Lemma tail_B_reads_its_digits K2 hs ms q m' rest out' :
  ci_match (str "at") K2 = true ->
  is_digits hs = true -> hs <> [] ->
  is_digits ms = true -> length ms = 2 ->
  K2 ++ space :: digits_text hs ++ colon :: digits_text ms ++ q
  = m' ++ rest ->
  matches (tail_B D) m' out' -> out' = [digits_text hs; digits_text ms].
Proof.
  intros HK2 Hhs Hne Hms Lms E Hm. unfold tail_B, lits in Hm.
  apply matches_app in Hm as (k & m1 & ck & c1 & -> & -> & Hk & Hi).
  apply matches_lits in Hk as [Hk ->].
  simpl in Hi.
  destruct Hi as (u3 & ? & -> & Fu3 & L3 & _ & Dg1 & ? & caps & -> & -> &
                  F1 & L1 & U1 & c' & ? & -> & Pc & Dg2 & ? & caps2 & -> & -> &
                  F2 & L2 & U2 & -> & ->).
  apply exact_literal in Pc; [|reflexivity]. subst c'.
  repeat rewrite <- app_assoc in E.
  apply same_length_app in E as [_ E].
  2:{ apply ci_match_length in HK2, Hk. congruence. }
  pose proof (digit_chars D D_ascii hs Hhs) as Fhs.
  symmetry in E. cbn [app] in E.
  destruct (one_blank u3 _ _ Fu3 L3 (digits_head D D_ascii hs _ Hhs Hne) E)
    as [-> E1].
  destruct (run_bounded (is_decimal D) Dg1 _ _ _ _ F1 E1
              (colon_not_decimal D D_ascii)) as (w & Ew & E2).
  clear E E1. rename E2 into E.
  destruct w as [|x w].
  - rewrite app_nil_r in Ew. subst Dg1.
    simpl in E. injection E as E. rewrite (app_nil_r Dg2) in E.
    apply same_length_app in E as [-> _]; [reflexivity|].
    simpl in U2. unfold digits_text. rewrite length_map. lia.
  - exfalso. simpl in E. injection E as <- _.
    assert (I : In colon (digits_text hs))
      by (rewrite Ew; apply in_or_app; right; left; reflexivity).
    rewrite Forall_forall in Fhs. apply Fhs in I. tauto.
Qed.

Lemma command_at_followed K1 X K2 hs ms q :
  command_at K1 X K2 hs ms ++ q =
  K1 ++ space :: quote :: X ++ quote :: space ::
    (K2 ++ space :: digits_text hs ++ colon :: digits_text ms) ++ q.
Proof.
  unfold command_at. repeat (rewrite <- ?app_assoc; simpl). reflexivity.
Qed.

Lemma command_in_followed K1 X K2 ds K3 q :
  command_in K1 X K2 ds K3 ++ q =
  K1 ++ space :: quote :: X ++ quote :: space ::
    (K2 ++ space :: digits_text ds ++ space :: K3) ++ q.
Proof.
  unfold command_in. repeat (rewrite <- ?app_assoc; simpl). reflexivity.
Qed.

(** X18. Text after an [in N minutes] command, as long as it has no double
    quote, does not change what the command parses to. *)
Theorem text_after_in_command_is_ignored K1 X K2 ds K3 q now :
  ci_match (str "/remindme") K1 = true -> plain X = true ->
  ci_match (str "in") K2 = true ->
  is_digits ds = true -> ds <> [] ->
  ci_match (str "minutes") K3 = true ->
  ~ In quote q ->
  parse_reminder_text D now (command_in K1 X K2 ds K3 ++ q) =
  parse_reminder_text D now (command_in K1 X K2 ds K3).
Proof.
  intros HK1 HX HK2 Hds Hne HK3 Hq.
  unfold parse_reminder_text.
  rewrite (search_A_command_in D D_ascii) by assumption.
  assert (S : search (pattern_A D) (command_in K1 X K2 ds K3 ++ q)
              = Some [X; digits_text ds]).
  { rewrite pattern_A_split, command_in_followed.
    apply search_command_suffix; auto.
    - apply cnt_zero in Hq.
      rewrite !cnt_app, cnt_space_cons, cnt_app, cnt_space_cons, Hq.
      rewrite (keyword_no_quote (str "in") K2),
        (digits_no_quote D D_ascii),
        (keyword_no_quote (str "minutes") K3); auto.
    - rewrite <- app_assoc. apply (keyword_head (str "in"));
        [vm_compute; discriminate | reflexivity | assumption].
    - apply (matches_tail_A D D_ascii); auto.
    - intros m' rest out' E Hm.
      apply (tail_A_unique D D_ascii K2 ds (K3 ++ q) m' rest); auto.
      rewrite <- E. repeat (rewrite <- ?app_assoc; simpl). reflexivity. }
  rewrite S. reflexivity.
Qed.

(** X19. Text after an [at H:MM] command, as long as it has no double quote,
    does not change what the command parses to; further digits after the
    minute are text of that kind. *)
Theorem text_after_at_command_is_ignored K1 X K2 hs ms q now :
  ci_match (str "/remindme") K1 = true -> plain X = true ->
  ci_match (str "at") K2 = true ->
  is_digits hs = true -> 1 <= length hs <= 2 ->
  is_digits ms = true -> length ms = 2 ->
  ~ In quote q ->
  parse_reminder_text D now (command_at K1 X K2 hs ms ++ q) =
  parse_reminder_text D now (command_at K1 X K2 hs ms).
Proof.
  intros HK1 HX HK2 Hhs Lhs Hms Lms Hq.
  assert (Hne : hs <> []) by (destruct hs; simpl in Lhs; [lia | discriminate]).
  apply cnt_zero in Hq.
  assert (CT : cnt ((K2 ++ space :: digits_text hs ++ colon :: digits_text ms)
                    ++ q) = 0).
  { rewrite !cnt_app, cnt_space_cons, cnt_app, cnt_colon_cons, Hq.
    rewrite (keyword_no_quote (str "at") K2),
      !(digits_no_quote D D_ascii); auto. }
  assert (HH : exists c T',
             (K2 ++ space :: digits_text hs ++ colon :: digits_text ms) ++ q
             = c :: T' /\ Py_UNICODE_ISSPACE c = false).
  { rewrite <- app_assoc. apply (keyword_head (str "at"));
      [vm_compute; discriminate | reflexivity | assumption]. }
  unfold parse_reminder_text.
  rewrite (search_A_command_at D D_ascii),
    (search_B_command_at D D_ascii) by assumption.
  assert (SA : search (pattern_A D) (command_at K1 X K2 hs ms ++ q) = None).
  { rewrite pattern_A_split, command_at_followed.
    apply search_command_none; auto.
    intros m' rest out' E Hm.
    rewrite <- app_assoc in E. eapply tail_A_not_at; eauto. }
  assert (SB : search (pattern_B D) (command_at K1 X K2 hs ms ++ q)
               = Some [X; digits_text hs; digits_text ms]).
  { rewrite pattern_B_split, command_at_followed.
    apply search_command_suffix; auto.
    - apply (matches_tail_B D D_ascii); auto.
    - intros m' rest out' E Hm.
      apply (tail_B_reads_its_digits K2 hs ms q m' rest); auto.
      rewrite <- E. repeat (rewrite <- ?app_assoc; simpl). reflexivity. }
  rewrite SA, SB. reflexivity.
Qed.

End MoreCommandFacts.

(** ** The further properties at concrete inputs *)

Module MoreConcrete.
Import Sample MoreSample.

Lemma uuid0_injective a b : uuid0 a = uuid0 b -> a = b.
Proof.
  unfold uuid0. intros H. apply app_inv_head in H.
  apply (f_equal (@length char)) in H. rewrite !repeat_length in H.
  exact H.
Qed.


Lemma every_reply_echoes_the_request_witness :
  exists reply_text,
    reply_of (request_of hello_there None) help_reply =
    reply_of (request_of hello_there None) reply_text /\
    (reply_text = help_reply \/ reply_text = missing_url_reply \/
     exists m rt, reply_text = confirmation_reply m (strftime0 rt)).
Proof.
  apply (every_reply_echoes_the_request ascii_decimal strftime0 now0
           (request_of hello_there None) empty_world
           (reply_of (request_of hello_there None) help_reply) empty_world).
  vm_compute. reflexivity.
Defined.


Lemma only_the_first_text_part_counts_witness :
  a2a_endpoint ascii_decimal strftime0 now0
    (with_parts request_with_callback
       ([data_part] ++ text_part in_10_minutes :: [text_part hello_there]))
    empty_world =
  a2a_endpoint ascii_decimal strftime0 now0
    (with_parts request_with_callback [text_part in_10_minutes])
    empty_world.
Proof.
  apply (only_the_first_text_part_counts ascii_decimal strftime0 now0
           request_with_callback [data_part] (text_part in_10_minutes)
           [text_part hello_there] empty_world); reflexivity.
Defined.

Lemma blank_message_gets_help_witness :
  a2a_endpoint ascii_decimal strftime0 now0
    (with_parts request_with_callback [data_part]) empty_world =
  (Ok (reply_of request_with_callback help_reply), empty_world).
Proof.
  apply (blank_message_gets_help ascii_decimal strftime0 now0
           request_with_callback [data_part] empty_world).
  left. reflexivity.
Defined.


Lemma stored_reminders_have_a_callback_witness :
  forallb has_callback
    (reminders (snd (a2a_endpoint ascii_decimal strftime0 now0
                       request_with_callback one_due))) = true /\
  forallb has_callback
    (reminders (snd (check_reminders uuid0 accepted now0 one_due))) = true.
Proof.
  apply (stored_reminders_have_a_callback ascii_decimal strftime0 uuid0
           accepted now0 request_with_callback one_due).
  reflexivity.
Defined.


Lemma scan_without_client_drops_due_reminders_witness :
  exists w',
    check_reminders uuid0 accepted now0 no_client = (Ok tt, w') /\
    reminders w' = kept_reminders now0 (reminders no_client) /\
    posted w' = posted no_client /\
    uuids w' = uuids no_client /\
    stdout w' = stdout no_client ++
                match due_reminders now0 (reminders no_client) with
                | [] => []
                | _ :: _ =>
                    FoundDue
                      (length (due_reminders now0 (reminders no_client)))
                    :: repeat ClientNotInitialized
                         (length (due_reminders now0 (reminders no_client)))
                end.
Proof.
  apply (scan_without_client_drops_due_reminders uuid0 accepted now0
           no_client).
  reflexivity.
Defined.


Lemma later_scan_subsumes_earlier_witness :
  reminders
    (snd (check_reminders uuid0 accepted noon
            (snd (check_reminders uuid0 accepted now0 busy)))) =
  kept_reminders noon (reminders busy) /\
  reminders
    (snd (check_reminders uuid0 accepted noon
            (snd (check_reminders uuid0 accepted now0 busy)))) =
  reminders (snd (check_reminders uuid0 accepted noon busy)).
Proof.
  apply (later_scan_subsumes_earlier uuid0 accepted now0 noon busy).
  reflexivity.
Defined.

(** In that run the first scan takes out the 09:05 reminder, the second the
    10:00 one, and the 18:00 one stays; the two POSTs of a single scan at
    noon carry the ids number 3 and 4. *)
Example two_scans_of_a_busy_store :
  reminders (snd (check_reminders uuid0 accepted now0 busy)) =
    [(mkdt 739000 10 0 0 0, str "standup", callback, str "a");
     (mkdt 739000 18 0 0 0, str "dinner", callback, str "b")] /\
  reminders
    (snd (check_reminders uuid0 accepted noon
            (snd (check_reminders uuid0 accepted now0 busy)))) =
    [(mkdt 739000 18 0 0 0, str "dinner", callback, str "b")] /\
  map request_id (posted (snd (check_reminders uuid0 accepted noon busy))) =
    [uuid0 3; uuid0 4].
Proof. repeat split; vm_compute; reflexivity. Qed.


Lemma parsed_message_is_quoted_in_the_text_witness :
  (exists before after,
     in_10_minutes = before ++ quote :: str "call mom" ++ quote :: after) /\
  ~ In newline (str "call mom").
Proof.
  apply (parsed_message_is_quoted_in_the_text ascii_decimal now0
           in_10_minutes (str "call mom") (mkdt 739000 9 15 0 0)).
  vm_compute. reflexivity.
Defined.

Lemma in_minutes_keeps_the_seconds_witness :
  second (mkdt 739000 9 15 30 0) = second late /\
  microsecond (mkdt 739000 9 15 30 0) = microsecond late /\
  exists n, 0 <= n /\
    int ascii_decimal (group [str "call mom"; str "10"] 2) = Ok n /\
    timestamp (mkdt 739000 9 15 30 0) = timestamp late + n * 60000000.
Proof.
  apply (in_minutes_keeps_the_seconds ascii_decimal late in_10_minutes
           [str "call mom"; str "10"] (str "call mom")
           (mkdt 739000 9 15 30 0)).
  - unfold valid, late, MAXORDINAL; simpl; lia.
  - vm_compute. reflexivity.
  - vm_compute. reflexivity.
Defined.

Lemma at_time_is_within_a_day_witness :
  second (mkdt 739001 9 5 0 0) = 0 /\
  microsecond (mkdt 739001 9 5 0 0) = 0 /\
  timestamp late <= timestamp (mkdt 739001 9 5 0 0)
  < timestamp late + 86400000000.
Proof.
  apply (at_time_is_within_a_day ascii_decimal late at_0905
           (str "standup") (mkdt 739001 9 5 0 0)).
  - unfold valid, late, MAXORDINAL; simpl; lia.
  - vm_compute. reflexivity.
  - vm_compute. reflexivity.
Defined.

Lemma malformed_time_is_unrecognized_witness :
  parse_reminder_text ascii_decimal now0 at_9_5 = Ok None.
Proof.
  apply (malformed_time_is_unrecognized ascii_decimal
           Concrete.ascii_decimal_table cmd (str "standup") (str "at")
           [9%N] [5%N] now0);
    try reflexivity; try discriminate.
  right. simpl. lia.
Defined.

Lemma text_after_in_command_is_ignored_witness :
  parse_reminder_text ascii_decimal now0 (in_10_minutes ++ str " please") =
  parse_reminder_text ascii_decimal now0 in_10_minutes.
Proof.
  apply (text_after_in_command_is_ignored ascii_decimal
           Concrete.ascii_decimal_table cmd (str "call mom") (str "in")
           [1%N; 0%N] (str "minutes") (str " please") now0);
    try reflexivity; try discriminate.
  vm_compute. intuition discriminate.
Defined.

Lemma text_after_at_command_is_ignored_witness :
  parse_reminder_text ascii_decimal now0 (at_0905 ++ str "0 sharp") =
  parse_reminder_text ascii_decimal now0 at_0905.
Proof.
  apply (text_after_at_command_is_ignored ascii_decimal
           Concrete.ascii_decimal_table cmd (str "standup") (str "at")
           [0%N; 9%N] [0%N; 5%N] (str "0 sharp") now0);
    try reflexivity; try (simpl; lia).
  vm_compute. intuition discriminate.
Defined.

End MoreConcrete.
